(** * demeter: a shallow embedding of the backtesting kernel

    The development follows the Python sources:
    - [demeter/squeeth/market.py]  (module [Squeeth]): vault status, vault
      checks, issuance and liquidation;
    - [demeter/deribit/market.py]  (module [Deribit]): order matching, fees,
      settlement of expired options;
    - [demeter/core/actuator.py]   (module [Actuator]): pre-run validation and
      the main loop;
    - [demeter/aave/core.py]       (module [Aave]): the ratios of the lending
      pool library.

    Conventions.
    - A Python [Decimal] is a rational number ([Q]); comparisons are the
      numeric ones ([Qle_bool], [Qeq_bool]).  Arithmetic is exact: the
      28-digit context precision of the [decimal] module is not modelled.
    - A method that mutates its object is a function from the state before the
      call to an [outcome]: the returned value with the state after the call,
      or the raised exception with the state _at the raise_ (Python keeps the
      mutations made before an exception).
    - A method that only reads is a function into [res].
    - The message of an exception is the constant part of the formatted
      message of the source, with the name of the instrument where the source
      puts it first. *)

From stdpp Require Import gmap strings list fin_maps.
From Stdlib Require Import QArith Qround Lqa.

Local Open Scope Q_scope.

(** ** Decimal numbers *)

Module Dec.

Definition Decimal : Type := Q.

Definition leb (a b : Decimal) : bool := Qle_bool a b.
Definition ltb (a b : Decimal) : bool := negb (Qle_bool b a).
Definition geb (a b : Decimal) : bool := Qle_bool b a.
Definition gtb (a b : Decimal) : bool := negb (Qle_bool a b).
Definition eqb (a b : Decimal) : bool := Qeq_bool a b.

(** Python's [min(a, b)]: [b] when [b < a], otherwise [a]. *)
Definition min (a b : Decimal) : Decimal := if ltb b a then b else a.

(** Python's [sum] over a list of decimals. *)
Definition sum (l : list Decimal) : Decimal := fold_left Qplus l 0.

End Dec.

Export Dec.

(** ** Exceptions and outcomes *)

Inductive Exn : Type :=
| DemeterError (msg : string)
| KeyError
| IndexError
| ArithmeticError
| AttributeError.

(** Result of a read-only computation. *)
Inductive res (A : Type) : Type :=
| Val (a : A)
| Exc (e : Exn).
Arguments Val {A} a.
Arguments Exc {A} e.

(** Result of a computation on a state [S]: the state is kept in both cases. *)
Inductive outcome (S A : Type) : Type :=
| Ok (a : A) (s : S)
| Raised (e : Exn) (s : S).
Arguments Ok {S A} a s.
Arguments Raised {S A} e s.

Definition M (S A : Type) : Type := S -> outcome S A.

Definition ret {S A} (a : A) : M S A := fun s => Ok a s.
Definition raise {S A} (e : Exn) : M S A := fun s => Raised e s.
Definition bind {S A B} (c : M S A) (k : A -> M S B) : M S B :=
  fun s => match c s with
           | Ok a s' => k a s'
           | Raised e s' => Raised e s'
           end.
Definition get {S} : M S S := fun s => Ok s s.
Definition modify {S} (f : S -> S) : M S unit := fun s => Ok tt (f s).
(** Run a read-only computation inside a stateful one. *)
Definition lift {S A} (r : res A) : M S A :=
  fun s => match r with Val a => Ok a s | Exc e => Raised e s end.
Definition when {S} (b : bool) (c : M S unit) : M S unit :=
  if b then c else ret tt.

Definition rbind {A B} (r : res A) (k : A -> res B) : res B :=
  match r with Val a => k a | Exc e => Exc e end.

(** [a / b] raises when the divisor is zero. *)
Definition div (a b : Decimal) : res Decimal :=
  if eqb b 0 then Exc ArithmeticError else Val (a / b).

Declare Scope monad_scope.
Delimit Scope monad_scope with monad.
Notation "'do' x <- c ;; k" := (bind c (fun x => k))
  (at level 10, x name, c at level 99, k at level 200) : monad_scope.
Notation "'do' ' p <- c ;; k" := (bind c (fun x => let 'p := x in k))
  (at level 10, p pattern, c at level 99, k at level 200) : monad_scope.

Declare Scope res_scope.
Delimit Scope res_scope with res.
Notation "'do' x <- c ;; k" := (rbind c (fun x => k))
  (at level 10, x name, c at level 99, k at level 200) : res_scope.
Notation "'do' ' p <- c ;; k" := (rbind c (fun x => let 'p := x in k))
  (at level 10, p pattern, c at level 99, k at level 200) : res_scope.

(** State of an outcome, whatever its kind. *)
Definition final_state {S A} (o : outcome S A) : S :=
  match o with Ok _ s => s | Raised _ s => s end.

(** The computation keeps the component [f] of the state, also when it
    raises. *)
Definition preserves {S X B} (f : S -> X) (c : M S B) : Prop :=
  forall s, f (final_state (c s)) = f s.

(** The computation keeps the property [P] of the state, also when it
    raises. *)
Definition keeps {S B} (P : S -> Prop) (c : M S B) : Prop :=
  forall s, P s -> P (final_state (c s)).

(** ** The broker's ledger *)

Module Broker.

(** Modelled from the spec: the class [Broker] ([demeter/broker]) is not among
    the sources.  Section 4.1 of the specification: [credit] always succeeds
    and increases the balance; [debit] fails when the resulting balance would
    be negative and negative balances are disallowed, otherwise it succeeds. *)
Record t : Type := mk {
  allow_negative_balance : bool;
  assets : gmap string Decimal
}.

Definition get_token_balance (tok : string) (b : t) : Decimal :=
  default 0 (assets b !! tok).

Definition add_to_balance (tok : string) (amount : Decimal) (b : t) : t :=
  {| allow_negative_balance := allow_negative_balance b;
     assets := <[tok := get_token_balance tok b + amount]> (assets b) |}.

Definition subtract_from_balance (tok : string) (amount : Decimal) (b : t)
  : res t :=
  let base := get_token_balance tok b in
  if ltb (base - amount) 0 && negb (allow_negative_balance b)
  then Exc (DemeterError "insufficient balance")
  else Val {| allow_negative_balance := allow_negative_balance b;
              assets := <[tok := base - amount]> (assets b) |}.

End Broker.

(** ** The squeeth vault market ([demeter/squeeth/market.py]) *)

Module Squeeth.

Definition VaultKey : Type := Z.
Bind Scope Z_scope with VaultKey.

(** A liquidity position is named by its tick range. *)
Definition PositionInfo : Type := (Z * Z)%type.

Inductive Token : Type := WETH | oSQTH | USDC.

Definition token_name (t : Token) : string :=
  match t with WETH => "weth" | oSQTH => "osqth" | USDC => "usdc" end.

(** The fields of [Vault] that [market.py] reads and writes. *)
Record Vault : Type := mkVault {
  id : Z;
  collateral_amount : Decimal;
  osqth_short_amount : Decimal;
  uni_nft_id : option PositionInfo
}.

(** [Vault(vault_key.id)]: the declaration of [Vault] is not among the
    sources; a new vault holds no collateral, no debt and no position
    (section 3 of the specification). *)
Definition new_vault (i : Z) : Vault :=
  {| id := i; collateral_amount := 0; osqth_short_amount := 0;
     uni_nft_id := None |}.

Definition set_collateral (c : Decimal) (v : Vault) : Vault :=
  {| id := id v; collateral_amount := c;
     osqth_short_amount := osqth_short_amount v; uni_nft_id := uni_nft_id v |}.
Definition set_short (s : Decimal) (v : Vault) : Vault :=
  {| id := id v; collateral_amount := collateral_amount v;
     osqth_short_amount := s; uni_nft_id := uni_nft_id v |}.
Definition set_nft (n : option PositionInfo) (v : Vault) : Vault :=
  {| id := id v; collateral_amount := collateral_amount v;
     osqth_short_amount := osqth_short_amount v; uni_nft_id := n |}.

(** What the vault market reads of a position of the paired pool. *)
Record Position : Type := mkPosition {
  liquidity : Z;
  pending_amount0 : Decimal;
  pending_amount1 : Decimal
}.

(** The paired spot market [UniLpMarket] is an external collaborator: the vault
    market only calls the operations below. *)
Class UniLpMarket (Pool : Type) : Type := {
  positions : Pool -> gmap PositionInfo Position;
  get_position_amount : Pool -> PositionInfo -> res (Decimal * Decimal);
  transfer_position_out : PositionInfo -> Pool -> res Pool;
  transfer_position_in : PositionInfo -> Pool -> res Pool;
  remove_liquidity :
    PositionInfo -> Pool -> Broker.t -> res (Decimal * Decimal * Pool * Broker.t)
}.

(** The row of data bound to the current timestamp.  [calc_twap_price]
    ([squeeth/helper.py]) is not among the sources: the trailing average that
    [get_twap_price] returns for each token at the current timestamp is a
    field of the status. *)
Record MarketStatus : Type := mkStatus {
  norm_factor : Decimal;
  twap_price : Token -> Decimal
}.

Definition MIN_DEPOSIT_AMOUNT : Decimal := 1 # 2.
Definition CR_NUMERATOR : Decimal := 3.
Definition CR_DENOMINATOR : Decimal := 2.
Definition REDUCE_DEBT_BOUNTY : Decimal := 2 # 100.
Definition LIQUIDATION_BOUNTY : Decimal := 1 # 10.
Definition MIN_COLLATERAL : Decimal := 1 # 2.

Section Market.

Context {Pool : Type} `{UniLpMarket Pool}.

Record SqueethMarket : Type := mkMarket {
  vault : gmap Z Vault;
  market_status : MarketStatus;
  squeeth_uni_pool : Pool;
  broker : Broker.t
}.

Definition with_vault (m : gmap Z Vault) (st : SqueethMarket) : SqueethMarket :=
  {| vault := m; market_status := market_status st;
     squeeth_uni_pool := squeeth_uni_pool st; broker := broker st |}.
Definition with_pool (p : Pool) (st : SqueethMarket) : SqueethMarket :=
  {| vault := vault st; market_status := market_status st;
     squeeth_uni_pool := p; broker := broker st |}.
Definition with_broker (b : Broker.t) (st : SqueethMarket) : SqueethMarket :=
  {| vault := vault st; market_status := market_status st;
     squeeth_uni_pool := squeeth_uni_pool st; broker := b |}.

Definition get_norm_factor (st : SqueethMarket) : Decimal :=
  norm_factor (market_status st).

Definition get_twap_price (t : Token) (st : SqueethMarket) : Decimal :=
  twap_price (market_status st) t.

(** [self.vault[vault_key]] *)
Definition vault_at (k : VaultKey) (st : SqueethMarket) : res Vault :=
  match vault st !! k with
  | Some v => Val v
  | None => Exc KeyError
  end.

(** An assignment to an attribute of [self.vault[vault_key]]. *)
Definition update_vault (k : VaultKey) (f : Vault -> Vault)
  : M SqueethMarket unit :=
  fun st => match vault st !! k with
            | Some v => Ok tt (with_vault (<[k := f v]> (vault st)) st)
            | None => Raised KeyError st
            end.

(** A read-only method called from a method that mutates. *)
Definition reads {A} (f : SqueethMarket -> res A) : M SqueethMarket A :=
  fun st => lift (f st) st.

Definition _get_effective_collateral_in_eth
  (vault_key : VaultKey) (norm_factor eth_price : option Decimal)
  (st : SqueethMarket) : res Decimal :=
  (let norm_factor := default (get_norm_factor st) norm_factor in
   let eth_price := default (get_twap_price WETH st) eth_price in
   do v <- vault_at vault_key st ;;
   do nft <-
     match uni_nft_id v with
     | Some position_info =>
         do ' (nft_weth_amount, nft_squeeth_amount) <-
           get_position_amount (squeeth_uni_pool st) position_info ;;
         match positions (squeeth_uni_pool st) !! position_info with
         | Some p => Val (nft_weth_amount + pending_amount0 p,
                          nft_squeeth_amount + pending_amount1 p)
         | None => Exc KeyError
         end
     | None => Val (0, 0)
     end ;;
   do osqth_index_val_in_eth <- div (snd nft * norm_factor) eth_price ;;
   Val (fst nft + osqth_index_val_in_eth + collateral_amount v))%res.

Definition _get_vault_status (vault_key : VaultKey) (norm_factor : Decimal)
  (st : SqueethMarket) : res (bool * bool) :=
  (let eth_price := get_twap_price WETH st in
   do v <- vault_at vault_key st ;;
   if eqb (osqth_short_amount v) 0 then Val (true, false)
   else
     let debt_value_in_eth := osqth_short_amount v * norm_factor * eth_price in
     do total_collateral <-
       _get_effective_collateral_in_eth
         vault_key (Some norm_factor) (Some eth_price) st ;;
     let is_dust := ltb total_collateral MIN_DEPOSIT_AMOUNT in
     let is_above_water :=
       geb (total_collateral * CR_DENOMINATOR)
           (debt_value_in_eth * CR_NUMERATOR) in
     Val (is_above_water, is_dust))%res.

Definition _check_vault (vault_key : VaultKey) (norm_factor : Decimal)
  : M SqueethMarket unit :=
  (do ' (is_safe, is_dust) <- reads (_get_vault_status vault_key norm_factor) ;;
   if negb is_safe
   then raise (DemeterError "Vault collateral rate is not safe")
   else if negb is_dust
        then raise (DemeterError "Vault collateral is below dust")
        else ret tt)%monad.

(** The parameters are named as in the source; the call in
    [open_deposit_mint] passes the minted amount second and the deposit
    third. *)
Definition _get_fee (v : Vault) (deposit_eth_amount osqth_mint_amount : Decimal)
  : Decimal * Decimal :=
  (0, deposit_eth_amount).

Definition add_to_balance (t : Token) (amount : Decimal)
  : M SqueethMarket unit :=
  modify (fun st =>
            with_broker (Broker.add_to_balance (token_name t) amount (broker st))
                        st).

Definition subtract_from_balance (t : Token) (amount : Decimal)
  : M SqueethMarket unit :=
  fun st =>
    match Broker.subtract_from_balance (token_name t) amount (broker st) with
    | Val b => Ok tt (with_broker b st)
    | Exc e => Raised e st
    end.

Definition _deposit_uni_position (vault_key : VaultKey)
  (uni_position : PositionInfo) : M SqueethMarket unit :=
  (do st <- get ;;
   match positions (squeeth_uni_pool st) !! uni_position with
   | None => raise (DemeterError "Position is not in squeeth-eth pool")
   | Some p =>
       if (liquidity p <=? 0)%Z
       then raise (DemeterError "Require liquidity in squeeth-eth pool")
       else
         do v <- reads (vault_at vault_key) ;;
         match uni_nft_id v with
         | Some _ => raise (DemeterError "This vault already has a NFT collateral")
         | None =>
             do _ <- update_vault vault_key (set_nft (Some uni_position)) ;;
             do st <- get ;;
             do pool <- lift (transfer_position_out uni_position
                                                    (squeeth_uni_pool st)) ;;
             modify (with_pool pool)
         end
   end)%monad.

(** [rnd] is the number drawn by [np.random.randint(10000, 100000)] when no
    vault key is given. *)
Definition open_deposit_mint
  (deposit_eth_amount osqth_mint_amount : Decimal)
  (vault_key : option VaultKey) (uni_position : option PositionInfo)
  (rnd : Z) : M SqueethMarket (VaultKey * Decimal) :=
  (do st0 <- get ;;
   let norm_factor := get_norm_factor st0 in
   do vault_key <-
     match vault_key with
     | None =>
         do _ <- modify (fun st =>
                           with_vault (<[rnd := new_vault rnd]> (vault st)) st) ;;
         ret rnd
     | Some k => ret k
     end ;;
   do ' (fee_amount, deposit_amount_with_fee) <-
     (if gtb osqth_mint_amount 0
      then
        do v <- reads (vault_at vault_key) ;;
        let r := _get_fee v osqth_mint_amount deposit_eth_amount in
        do _ <- update_vault vault_key
                  (fun v => set_short (osqth_short_amount v + osqth_mint_amount) v) ;;
        do _ <- add_to_balance oSQTH osqth_mint_amount ;;
        ret r
      else ret (0, deposit_eth_amount)) ;;
   do _ <- when (gtb deposit_eth_amount 0)
             (update_vault vault_key
                (fun v => set_collateral
                            (collateral_amount v + deposit_amount_with_fee) v)) ;;
   do _ <- match uni_position with
           | Some p => _deposit_uni_position vault_key p
           | None => ret tt
           end ;;
   do _ <- _check_vault vault_key norm_factor ;;
   do _ <- when (gtb fee_amount 0) (subtract_from_balance WETH fee_amount) ;;
   ret (vault_key, osqth_mint_amount))%monad.

Definition not_exist : Exn := DemeterError "not exist".

Definition _withdraw_collateral (vault_key : VaultKey) (amount : option Decimal)
  : M SqueethMarket unit :=
  (do st <- get ;;
   match vault st !! vault_key with
   | None => raise not_exist
   | Some v =>
       let amount :=
         match amount with
         | None => collateral_amount v
         | Some a => if gtb a (collateral_amount v)
                     then collateral_amount v else a
         end in
       do _ <- update_vault vault_key
                 (fun v => set_collateral (collateral_amount v - amount) v) ;;
       do _ <- add_to_balance WETH amount ;;
       do st <- get ;;
       _check_vault vault_key (get_norm_factor st)
   end)%monad.

Definition burn_and_withdraw (vault_key : VaultKey)
  (osqth_burn_amount withdraw_eth_amount : Decimal) : M SqueethMarket unit :=
  (do st <- get ;;
   match vault st !! vault_key with
   | None => raise not_exist
   | Some v =>
       do _ <- when (gtb osqth_burn_amount 0)
                 (if geb (osqth_short_amount v) osqth_burn_amount
                  then update_vault vault_key
                         (fun v => set_short
                                     (osqth_short_amount v - osqth_burn_amount) v)
                  else update_vault vault_key (set_short 0)) ;;
       do _ <- when (gtb withdraw_eth_amount 0)
                 (_withdraw_collateral vault_key (Some withdraw_eth_amount)) ;;
       do st <- get ;;
       _check_vault vault_key (get_norm_factor st)
   end)%monad.

Definition _get_single_liquidation_amount
  (max_input_osqth max_liquidatable_osqth : Decimal) (st : SqueethMarket)
  : Decimal * Decimal :=
  let final_amount :=
    if gtb max_input_osqth max_liquidatable_osqth
    then max_liquidatable_osqth else max_input_osqth in
  let osqth_price := get_twap_price oSQTH st in
  let collateral_to_pay := final_amount * osqth_price in
  let collateral_to_pay :=
    collateral_to_pay + collateral_to_pay * LIQUIDATION_BOUNTY in
  (final_amount, collateral_to_pay).

Definition _get_liquidation_result
  (max_osqth_amount vault_short_amount vault_collateral_amount : Decimal)
  (st : SqueethMarket) : Decimal * Decimal :=
  let r := _get_single_liquidation_amount
             max_osqth_amount (vault_short_amount / 2) st in
  let r :=
    if gtb vault_collateral_amount (snd r)
    then if ltb (vault_collateral_amount - snd r) MIN_COLLATERAL
         then _get_single_liquidation_amount
                max_osqth_amount vault_short_amount st
         else r
    else r in
  if gtb (snd r) vault_collateral_amount
  then (vault_short_amount, vault_collateral_amount)
  else r.


Definition _get_reduce_debt_bounty (eth_withdrawn osqth_reduced : Decimal)
  (st : SqueethMarket) : Decimal :=
  let price := get_twap_price oSQTH st in
  (osqth_reduced * price + eth_withdrawn) * REDUCE_DEBT_BOUNTY.

Definition _get_reduce_debt_result_in_vault (vault_key : VaultKey)
  (nft_eth_amount nft_osqth_amount : Decimal) (pay_bounty : bool)
  : M SqueethMarket (Decimal * Decimal * Decimal) :=
  (do st <- get ;;
   let bounty :=
     if pay_bounty
     then _get_reduce_debt_bounty nft_eth_amount nft_osqth_amount st
     else 0 in
   do v <- reads (vault_at vault_key) ;;
   let '(burn_amount, osqth_excess) :=
     if gtb nft_osqth_amount (osqth_short_amount v)
     then (osqth_short_amount v, nft_osqth_amount - osqth_short_amount v)
     else (nft_osqth_amount, 0) in
   do _ <- update_vault vault_key
             (fun v => set_short (osqth_short_amount v - burn_amount) v) ;;
   do _ <- update_vault vault_key (set_nft None) ;;
   do _ <- update_vault vault_key
             (fun v => set_collateral (collateral_amount v + nft_eth_amount) v) ;;
   do _ <- update_vault vault_key
             (fun v => set_collateral (collateral_amount v - bounty) v) ;;
   ret (burn_amount, osqth_excess, bounty))%monad.

Definition _redeem_uni_token (position_info : PositionInfo)
  : M SqueethMarket (Decimal * Decimal) :=
  fun st =>
    match remove_liquidity position_info (squeeth_uni_pool st) (broker st) with
    | Val (weth_get, osqth_get, pool, b) =>
        Ok (weth_get, osqth_get) (with_broker b (with_pool pool st))
    | Exc e => Raised e st
    end.

Definition _reduce_debt (vault_key : VaultKey) (pay_bounty : bool)
  : M SqueethMarket Decimal :=
  (do v <- reads (vault_at vault_key) ;;
   match uni_nft_id v with
   | None => ret 0
   | Some position_info =>
       do ' (withdrawn_eth_amount, withdrawn_osqth_amount) <-
         _redeem_uni_token position_info ;;
       do ' (burn_amount, excess, bounty) <-
         _get_reduce_debt_result_in_vault
           vault_key withdrawn_eth_amount withdrawn_osqth_amount pay_bounty ;;
       do _ <- when (gtb excess 0) (add_to_balance oSQTH excess) ;;
       ret bounty
   end)%monad.


End Market.

Arguments SqueethMarket Pool : clear implicits.

(** A paired pool that holds no position: every lookup of a position fails. *)
#[export] Instance empty_pool : UniLpMarket unit := {|
  positions := fun _ => ∅;
  get_position_amount := fun _ _ => Exc KeyError;
  transfer_position_out := fun _ _ => Exc KeyError;
  transfer_position_in := fun _ _ => Exc KeyError;
  remove_liquidity := fun _ _ _ => Exc KeyError
|}.

(** The first component of the vault status. *)
Definition is_safe {Pool} `{UniLpMarket Pool} (vault_key : VaultKey)
  (norm_factor : Decimal) (st : SqueethMarket Pool) : res bool :=
  (do r <- _get_vault_status vault_key norm_factor st ;; Val (fst r))%res.


(** A market with one vault, given prices and an empty ledger. *)
Definition one_vault (v : Vault) (nf eth osqth : Decimal) : SqueethMarket unit :=
  {| vault := {[ id v := v ]};
     market_status :=
       {| norm_factor := nf;
          twap_price := fun t => match t with
                                 | WETH => eth | oSQTH => osqth | USDC => 1
                                 end |};
     squeeth_uni_pool := tt;
     broker := Broker.mk false ∅ |}.

(** A paired pool as the list of its positions, each with the ETH and the
    oSQTH that its liquidity is worth; removing the liquidity takes the
    position off the list. *)
#[export] Instance listed_pool
  : UniLpMarket (list (PositionInfo * (Decimal * Decimal))) := {|
  positions := fun pool =>
    list_to_map (map (fun e => (fst e, {| liquidity := 1;
                                          pending_amount0 := 0;
                                          pending_amount1 := 0 |})) pool);
  get_position_amount := fun pool p =>
    match find (fun e => bool_decide (fst e = p)) pool with
    | Some e => Val (snd e)
    | None => Exc KeyError
    end;
  transfer_position_out := fun _ pool => Val pool;
  transfer_position_in := fun _ pool => Val pool;
  remove_liquidity := fun p pool b =>
    match find (fun e => bool_decide (fst e = p)) pool with
    | Some e =>
        Val (fst (snd e), snd (snd e),
             filter (fun e => fst e <> p) pool, b)
    | None => Exc KeyError
    end
|}.

(** A vault with debt 10, collateral 1 and the position [(0, 100)], in a
    market whose pool holds that position, worth 2 ETH and 4 oSQTH. *)
Definition vault_with_position : Vault :=
  {| id := 7; collateral_amount := 1; osqth_short_amount := 10;
     uni_nft_id := Some (0, 100)%Z |}.

Definition market_with_position
  : SqueethMarket (list (PositionInfo * (Decimal * Decimal))) :=
  {| vault := {[ 7%Z := vault_with_position ]};
     market_status :=
       {| norm_factor := 1 # 2;
          twap_price := fun t => match t with
                                 | WETH => 1 | oSQTH => 1 # 10 | USDC => 1
                                 end |};
     squeeth_uni_pool := [((0, 100)%Z, (2, 4))];
     broker := Broker.mk false ∅ |}.

(** Collateral 1.5 ETH against a debt worth 1 ETH. *)
Definition vault_150 : Vault :=
  {| id := 1; collateral_amount := 3 # 2; osqth_short_amount := 1;
     uni_nft_id := None |}.


End Squeeth.

(** ** The option market ([demeter/deribit/market.py]) *)

Module Deribit.

Inductive OptionKind : Type := put | call.

(** A resting order of the book is the pair [[price, amount]]. *)
Definition BookOrder : Type := (Decimal * Decimal)%type.

(** A row of the order book data, with the columns that the market reads. *)
Record InstrumentStatus : Type := mkInstrument {
  state : string;
  type : OptionKind;
  expiry_time : Z;
  strike_price : Decimal;
  asks : list BookOrder;
  bids : list BookOrder;
  mark_price : Decimal;
  underlying_price : Decimal
}.

Definition set_asks (l : list BookOrder) (i : InstrumentStatus)
  : InstrumentStatus :=
  {| state := state i; type := type i; expiry_time := expiry_time i;
     strike_price := strike_price i; asks := l; bids := bids i;
     mark_price := mark_price i; underlying_price := underlying_price i |}.
Definition set_bids (l : list BookOrder) (i : InstrumentStatus)
  : InstrumentStatus :=
  {| state := state i; type := type i; expiry_time := expiry_time i;
     strike_price := strike_price i; asks := asks i; bids := l;
     mark_price := mark_price i; underlying_price := underlying_price i |}.

Record Order : Type := mkOrder {
  price : Decimal;
  amount : Decimal
}.

Record OptionPosition : Type := mkPosition {
  instrument_name : string;
  pos_expiry_time : Z;
  pos_strike_price : Decimal;
  pos_type : OptionKind;
  pos_amount : Decimal;
  avg_buy_price : Decimal;
  buy_amount : Decimal;
  avg_sell_price : Decimal;
  sell_amount : Decimal
}.

(** The declaration of [DeribitTokenConfig] is not among the sources;
    [min_amount], which [market.py] reads, is a field of it here. *)
Record DeribitTokenConfig : Type := mkConfig {
  trade_fee_rate : Decimal;
  delivery_fee_rate : Decimal;
  min_trade_decimal : Z;
  min_fee_decimal : Z;
  min_amount : Decimal
}.

Definition MAX_FEE_RATE : Decimal := 125 # 1000.

(** [TOKEN_CONFIGS[ETH]], with one contract as the minimal amount. *)
Definition ETH_CONFIG : DeribitTokenConfig :=
  {| trade_fee_rate := 3 # 10000; delivery_fee_rate := 15 # 100000;
     min_trade_decimal := 0; min_fee_decimal := -6; min_amount := 1 |}.

Record TradeAction : Type := mkTrade {
  ta_instrument_name : string;
  ta_type : OptionKind;
  ta_average_price : Decimal;
  ta_amount : Decimal;
  ta_total_premium : Decimal;
  ta_mark_price : Decimal;
  ta_underlying_price : Decimal;
  ta_fee : Decimal;
  ta_orders : list Order
}.

Record SettleAction : Type := mkSettle {
  sa_instrument_name : string;
  sa_type : OptionKind;
  sa_mark_price : Decimal;
  sa_amount : Decimal;
  sa_total_premium : Decimal;
  sa_strike_price : Decimal;
  sa_underlying_price : Decimal
}.

Inductive Action : Type :=
| BuyAction (a : TradeAction)
| SellAction (a : TradeAction)
| DeliverAction (a : SettleAction) (deriver_amount fee income_amount : Decimal)
| ExpiredAction (a : SettleAction).

Record DeribitMarketStatus : Type := mkStatus {
  timestamp : Z;
  status_data : gmap string InstrumentStatus
}.

(** [positions] is a Python dictionary: a list of entries in insertion order,
    one entry per key.  [data] is the whole table, indexed by time and
    instrument; [market_status] holds the rows of the current time. *)
Record DeribitOptionMarket : Type := mkMarket {
  token : string;
  token_config : DeribitTokenConfig;
  positions : list (string * OptionPosition);
  data : option (gmap (Z * string) InstrumentStatus);
  market_status : DeribitMarketStatus;
  broker : Broker.t;
  action_log : list Action
}.

Definition with_positions (l : list (string * OptionPosition))
  (st : DeribitOptionMarket) : DeribitOptionMarket :=
  {| token := token st; token_config := token_config st; positions := l;
     data := data st; market_status := market_status st; broker := broker st;
     action_log := action_log st |}.
Definition with_data (d : option (gmap (Z * string) InstrumentStatus))
  (st : DeribitOptionMarket) : DeribitOptionMarket :=
  {| token := token st; token_config := token_config st;
     positions := positions st; data := d; market_status := market_status st;
     broker := broker st; action_log := action_log st |}.
Definition with_status_data (d : gmap string InstrumentStatus)
  (st : DeribitOptionMarket) : DeribitOptionMarket :=
  {| token := token st; token_config := token_config st;
     positions := positions st; data := data st;
     market_status := {| timestamp := timestamp (market_status st);
                         status_data := d |};
     broker := broker st; action_log := action_log st |}.
Definition with_broker (b : Broker.t) (st : DeribitOptionMarket)
  : DeribitOptionMarket :=
  {| token := token st; token_config := token_config st;
     positions := positions st; data := data st;
     market_status := market_status st; broker := b;
     action_log := action_log st |}.
Definition with_action_log (l : list Action) (st : DeribitOptionMarket)
  : DeribitOptionMarket :=
  {| token := token st; token_config := token_config st;
     positions := positions st; data := data st;
     market_status := market_status st; broker := broker st;
     action_log := l |}.

(** *** Dictionary operations on [positions] *)

Fixpoint pos_lookup (k : string) (l : list (string * OptionPosition))
  : option OptionPosition :=
  match l with
  | [] => None
  | (k', p) :: l => if String.eqb k k' then Some p else pos_lookup k l
  end.

(** [positions[k] = p]: the entry is replaced in place, or added at the end. *)
Fixpoint pos_set (k : string) (p : OptionPosition)
  (l : list (string * OptionPosition)) : list (string * OptionPosition) :=
  match l with
  | [] => [(k, p)]
  | (k', p') :: l =>
      if String.eqb k k' then (k, p) :: l else (k', p') :: pos_set k p l
  end.

(** [del positions[k]] for a key of the dictionary. *)
Fixpoint pos_del (k : string) (l : list (string * OptionPosition))
  : list (string * OptionPosition) :=
  match l with
  | [] => []
  | (k', p) :: l => if String.eqb k k' then l else (k', p) :: pos_del k l
  end.

Section Market.

(** [round_decimal] ([deribit/helper.py]) is not among the sources: it is a
    parameter of the market. *)
Context (round_decimal : Decimal -> Z -> Decimal).

Definition decimal (st : DeribitOptionMarket) : Z :=
  min_fee_decimal (token_config st).

Definition reads {A} (f : DeribitOptionMarket -> res A)
  : M DeribitOptionMarket A :=
  fun st => lift (f st) st.

(** [_record_action]: the action reaches the action log of the run. *)
Definition _record_action (a : Action) : M DeribitOptionMarket unit :=
  modify (fun st => with_action_log (action_log st ++ [a]) st).

Definition get_trade_fee (amount total_premium : Decimal)
  (st : DeribitOptionMarket) : Decimal :=
  round_decimal
    (min (trade_fee_rate (token_config st) * amount)
         (MAX_FEE_RATE * total_premium))
    (decimal st).

Definition get_deliver_fee (amount total_premium : Decimal)
  (st : DeribitOptionMarket) : Decimal :=
  round_decimal
    (min (delivery_fee_rate (token_config st) * amount)
         (MAX_FEE_RATE * total_premium))
    (decimal st).

Definition __get_trade_amount (amount : Decimal) (st : DeribitOptionMarket)
  : Decimal :=
  if ltb amount (min_amount (token_config st))
  then min_amount (token_config st)
  else round_decimal amount (min_trade_decimal (token_config st)).

(** Modelled from the spec: [Order.get_average_price] is declared with [Order]
    in [deribit/_typing.py], which is not among the sources.  Section 4.4:
    the volume-weighted average price [(p1·a1 + p2·a2) / (a1 + a2)]. *)
Definition get_average_price (orders : list Order) : res Decimal :=
  div (sum (map (fun t => amount t * price t) orders))
      (sum (map amount orders)).

Definition in_band (price : Decimal) (x : BookOrder) : bool :=
  let error := 1 # 1000 in
  ltb ((1 - error) * price) (fst x) && ltb (fst x) ((1 + error) * price).

Definition _find_available_orders (price : Decimal)
  (order_list : list BookOrder) : list BookOrder :=
  filter (fun x => in_band price x = true) order_list.

(** The loop of [_deduct_order_amount] when no price is given; the first
    component is the book after the in-place updates. *)
Fixpoint sweep (amount_to_deduct : Decimal) (orders : list BookOrder)
  : list BookOrder * list Order :=
  match orders with
  | [] => ([], [])
  | order :: rest =>
      if eqb (snd order) 0
      then let r := sweep amount_to_deduct rest in (order :: fst r, snd r)
      else
        let should_deduct := min (snd order) amount_to_deduct in
        let amount_to_deduct := amount_to_deduct - should_deduct in
        let order' := (fst order, snd order - should_deduct) in
        let fill := {| price := fst order; amount := should_deduct |} in
        if gtb (snd order') 0 || eqb amount_to_deduct 0
        then (order' :: rest, [fill])
        else let r := sweep amount_to_deduct rest in
             (order' :: fst r, fill :: snd r)
  end.

(** The loop of [_deduct_order_amount] for a given price. *)
Fixpoint deduct_at (price_in_token amount : Decimal) (orders : list BookOrder)
  : list BookOrder * list Order :=
  match orders with
  | [] => ([], [])
  | order :: rest =>
      let r := deduct_at price_in_token amount rest in
      if eqb price_in_token (fst order)
      then ((fst order, snd order - amount) :: fst r,
            {| price := price_in_token; amount := amount |} :: snd r)
      else (order :: fst r, snd r)
  end.

Definition _deduct_order_amount (amount : Decimal) (orders : list BookOrder)
  (price_in_token : option Decimal) : list BookOrder * list Order :=
  match price_in_token with
  | Some p => deduct_at p amount orders
  | None => sweep amount orders
  end.

(** The price of a trade: [price_in_token], or [price_in_usd] over the
    underlying price when only that one is given. *)
Definition target_price (price_in_token price_in_usd : option Decimal)
  (instrument : InstrumentStatus) : res (option Decimal) :=
  match price_in_usd, price_in_token with
  | Some usd, None =>
      (do p <- div usd (underlying_price instrument) ;; Val (Some p))%res
  | _, _ => Val price_in_token
  end.

Definition _check_transaction (instrument_name : string) (amount : Decimal)
  (price_in_token price_in_usd : option Decimal) (is_buy : bool)
  (st : DeribitOptionMarket)
  : res (Decimal * InstrumentStatus * option Decimal) :=
  match status_data (market_status st) !! instrument_name with
  | None => Exc (DemeterError (instrument_name ++ " is not in current orderbook"))
  | Some instrument =>
      if negb (String.eqb (state instrument) "open")
      then Exc (DemeterError ("state of " ++ instrument_name ++ " is not open"))
      else if ltb amount (min_amount (token_config st))
      then Exc (DemeterError "amount should greater than min amount")
      else
        (let amount := __get_trade_amount amount st in
         do price_in_token <-
           target_price price_in_token price_in_usd instrument ;;
         let available_orders :=
           if is_buy then asks instrument else bids instrument in
         do r <-
           match price_in_token with
           | Some p =>
               match _find_available_orders p available_orders with
               | [] => Exc (DemeterError
                             (instrument_name ++ " doesn't have a order in price"))
               | o :: _ => Val (Some (fst o), snd o)
               end
           | None => Val (None, sum (map snd available_orders))
           end ;;
         if gtb amount (snd r)
         then Exc (DemeterError "insufficient order to buy")
         else Val (amount, instrument, fst r))%res
  end.

(** The in-place update of the lists of an instrument is seen through the
    current status; the write back stores the list in the table. *)
Definition stored_book (is_buy : bool) (instrument_name : string)
  (book : list BookOrder) (st : DeribitOptionMarket) : DeribitOptionMarket :=
  let upd := if is_buy then set_asks book else set_bids book in
  let st1 := with_status_data
               (alter upd instrument_name (status_data (market_status st))) st in
  match data st with
  | Some d =>
      with_data
        (Some (alter upd (timestamp (market_status st), instrument_name) d)) st1
  | None => st1
  end.

Definition store_book (is_buy : bool) (instrument_name : string)
  (book : list BookOrder) : M DeribitOptionMarket unit :=
  modify (stored_book is_buy instrument_name book).

Definition total_premium_of (l : list Order) : Decimal :=
  sum (map (fun t => amount t * price t) l).

Definition buy (instrument_name : string) (amount : Decimal)
  (price_in_token price_in_usd : option Decimal)
  : M DeribitOptionMarket (list Order) :=
  (do ' (amount, instrument, price_in_token) <-
     reads (_check_transaction
              instrument_name amount price_in_token price_in_usd true) ;;
   (* deduct bids amount *)
   let r := _deduct_order_amount amount (asks instrument) price_in_token in
   let ask_list := snd r in
   (* write positions back *)
   do _ <- store_book true instrument_name (fst r) ;;
   let total_premium := total_premium_of ask_list in
   do st <- get ;;
   let fee_amount := get_trade_fee amount total_premium st in
   do b <- lift (Broker.subtract_from_balance
                   (token st) (total_premium + fee_amount) (broker st)) ;;
   do _ <- modify (with_broker b) ;;
   (* add position *)
   do average_price <- lift (get_average_price ask_list) ;;
   do _ <-
     match pos_lookup instrument_name (positions st) with
     | None =>
         modify (fun st =>
           with_positions
             (pos_set instrument_name
                {| instrument_name := instrument_name;
                   pos_expiry_time := expiry_time instrument;
                   pos_strike_price := strike_price instrument;
                   pos_type := type instrument;
                   pos_amount := amount;
                   avg_buy_price := average_price;
                   buy_amount := amount;
                   avg_sell_price := 0;
                   sell_amount := 0 |}
                (positions st)) st)
     | Some position =>
         do avg <- lift (get_average_price
                           [ {| price := average_price; amount := amount |};
                             {| price := avg_buy_price position;
                                amount := buy_amount position |} ]) ;;
         modify (fun st =>
           with_positions
             (pos_set instrument_name
                {| instrument_name := Deribit.instrument_name position;
                   pos_expiry_time := pos_expiry_time position;
                   pos_strike_price := pos_strike_price position;
                   pos_type := pos_type position;
                   pos_amount := pos_amount position + amount;
                   avg_buy_price := avg;
                   buy_amount := buy_amount position + amount;
                   avg_sell_price := avg_sell_price position;
                   sell_amount := sell_amount position |}
                (positions st)) st)
     end ;;
   do _ <- _record_action
             (BuyAction
                {| ta_instrument_name := instrument_name;
                   ta_type := type instrument;
                   ta_average_price := average_price;
                   ta_amount := amount;
                   ta_total_premium := total_premium;
                   ta_mark_price := mark_price instrument;
                   ta_underlying_price := underlying_price instrument;
                   ta_fee := fee_amount;
                   ta_orders := ask_list |}) ;;
   ret ask_list)%monad.

Definition sell (instrument_name : string) (amount : Decimal)
  (price_in_token price_in_usd : option Decimal)
  : M DeribitOptionMarket (list Order) :=
  (do ' (amount, instrument, price_in_token) <-
     reads (_check_transaction
              instrument_name amount price_in_token price_in_usd false) ;;
   (* deduct  amount *)
   let r := _deduct_order_amount amount (bids instrument) price_in_token in
   let bid_list := snd r in
   (* write positions back *)
   do _ <- store_book false instrument_name (fst r) ;;
   let total_premium := total_premium_of bid_list in
   do st <- get ;;
   let fee := get_trade_fee amount total_premium st in
   do _ <- modify (with_broker
                     (Broker.add_to_balance
                        (token st) (total_premium - fee) (broker st))) ;;
   (* subtract position *)
   do average_price <- lift (get_average_price bid_list) ;;
   match pos_lookup instrument_name (positions st) with
   | None => raise (DemeterError "No such instrument position")
   | Some position =>
       do avg <- lift (get_average_price
                         [ {| price := average_price; amount := amount |};
                           {| price := avg_sell_price position;
                              amount := sell_amount position |} ]) ;;
       let position' :=
         {| instrument_name := Deribit.instrument_name position;
            pos_expiry_time := pos_expiry_time position;
            pos_strike_price := pos_strike_price position;
            pos_type := pos_type position;
            pos_amount := pos_amount position - amount;
            avg_buy_price := avg_buy_price position;
            buy_amount := buy_amount position;
            avg_sell_price := avg;
            sell_amount := sell_amount position + amount |} in
       do _ <- modify (fun st =>
                 with_positions
                   (if leb (pos_amount position') 0
                    then pos_del instrument_name (positions st)
                    else pos_set instrument_name position' (positions st)) st) ;;
       do _ <- _record_action
                 (SellAction
                    {| ta_instrument_name := instrument_name;
                       ta_type := type instrument;
                       ta_average_price := average_price;
                       ta_amount := amount;
                       ta_total_premium := total_premium;
                       ta_mark_price := mark_price instrument;
                       ta_underlying_price := underlying_price instrument;
                       ta_fee := fee;
                       ta_orders := bid_list |}) ;;
       ret bid_list
   end)%monad.

Definition _deliver_option (option_pos : OptionPosition)
  (instrument : InstrumentStatus) (is_call : bool)
  : M DeribitOptionMarket (option (Decimal * Decimal)) :=
  (do st <- get ;;
   let fee :=
     get_deliver_fee
       (pos_amount option_pos)
       (pos_amount option_pos
        * round_decimal (mark_price instrument) (decimal st)) st in
   let price_diff :=
     if is_call
     then underlying_price instrument - pos_strike_price option_pos
     else pos_strike_price option_pos - underlying_price instrument in
   do ratio <- lift (div price_diff (underlying_price instrument)) ;;
   let balance_to_add :=
     round_decimal (pos_amount option_pos * ratio) (decimal st) in
   if leb balance_to_add fee
   then ret None
   else
     do _ <- modify (with_broker
                       (Broker.add_to_balance
                          (token st) (balance_to_add - fee) (broker st))) ;;
     ret (Some (balance_to_add, fee)))%monad.

Definition settle_action (pos_key : string) (position : OptionPosition)
  (mark underlying : Decimal) (st : DeribitOptionMarket) : SettleAction :=
  {| sa_instrument_name := pos_key;
     sa_type := pos_type position;
     sa_mark_price := round_decimal mark (decimal st);
     sa_amount := pos_amount position;
     sa_total_premium :=
       pos_amount position * round_decimal mark (decimal st);
     sa_strike_price := pos_strike_price position;
     sa_underlying_price := round_decimal underlying (decimal st) |}.

Definition is_put (k : OptionKind) : bool :=
  match k with put => true | call => false end.
Definition is_call (k : OptionKind) : bool :=
  match k with put => false | call => true end.

(** The body of the first loop of [check_option_exercise]: the keys that it
    appends to [key_to_remove]. *)
Definition exercise_position (pos_key : string) (position : OptionPosition)
  : M DeribitOptionMarket (list string) :=
  (do st <- get ;;
   if (pos_expiry_time position <=? timestamp (market_status st))%Z
   then
     match status_data (market_status st) !! instrument_name position with
     | None =>
         raise (DemeterError
                  (instrument_name position ++ " is not in current orderbook"))
     | Some instrument =>
         do deliver <-
           (if is_put (pos_type position)
               && gtb (pos_strike_price position) (underlying_price instrument)
            then _deliver_option position instrument false
            else if is_call (pos_type position)
                    && ltb (pos_strike_price position)
                           (underlying_price instrument)
            then _deliver_option position instrument true
            else ret None) ;;
         do _ <-
           match deliver with
           | Some (deliver_amount, deliver_fee) =>
               _record_action
                 (DeliverAction
                    (settle_action pos_key position (mark_price instrument)
                                   (underlying_price instrument) st)
                    deliver_amount deliver_fee (deliver_amount - deliver_fee))
           | None => ret tt
           end ;;
         ret [pos_key]
     end
   else ret [])%monad.

Fixpoint exercise_loop (items : list (string * OptionPosition))
  : M DeribitOptionMarket (list string) :=
  match items with
  | [] => ret []
  | (pos_key, position) :: rest =>
      (do ks <- exercise_position pos_key position ;;
       do ks' <- exercise_loop rest ;;
       ret (ks ++ ks'))%monad
  end.

(** The body of the second loop of [check_option_exercise]. *)
Definition remove_position (pos_key : string) : M DeribitOptionMarket unit :=
  (do st <- get ;;
   match pos_lookup pos_key (positions st) with
   | None => raise KeyError
   | Some position =>
       do quote <-
         match status_data (market_status st) !! pos_key with
         | Some _ =>
             match status_data (market_status st) !! instrument_name position
             with
             | Some instrument =>
                 ret (mark_price instrument, underlying_price instrument)
             | None => raise KeyError
             end
         | None => ret (0, 0)
         end ;;
       do _ <- _record_action
                 (ExpiredAction
                    (settle_action pos_key position (fst quote) (snd quote) st)) ;;
       modify (fun st => with_positions (pos_del pos_key (positions st)) st)
   end)%monad.

Fixpoint remove_loop (keys : list string) : M DeribitOptionMarket unit :=
  match keys with
  | [] => ret tt
  | pos_key :: rest =>
      (do _ <- remove_position pos_key ;; remove_loop rest)%monad
  end.

Definition check_option_exercise : M DeribitOptionMarket unit :=
  (do st <- get ;;
   do key_to_remove <- exercise_loop (positions st) ;;
   remove_loop key_to_remove)%monad.

Definition update : M DeribitOptionMarket unit := check_option_exercise.

End Market.

(** *** The settlement in the words of the specification *)

Section Settlement.

Context (round_decimal : Decimal -> Z -> Decimal).

(** The expiry of the position has passed. *)
Definition expired (st : DeribitOptionMarket) (p : OptionPosition) : bool :=
  (pos_expiry_time p <=? timestamp (market_status st))%Z.

(** A put is in the money when strike > underlying, a call when
    strike < underlying. *)
Definition in_the_money (p : OptionPosition) (i : InstrumentStatus) : bool :=
  match pos_type p with
  | put => gtb (pos_strike_price p) (underlying_price i)
  | call => ltb (pos_strike_price p) (underlying_price i)
  end.

Definition price_diff (p : OptionPosition) (i : InstrumentStatus) : Decimal :=
  match pos_type p with
  | put => pos_strike_price p - underlying_price i
  | call => underlying_price i - pos_strike_price p
  end.

(** [amount × (price_diff / underlying_price)], rounded. *)
Definition delivery_amount (st : DeribitOptionMarket) (p : OptionPosition)
  (i : InstrumentStatus) : Decimal :=
  round_decimal (pos_amount p * (price_diff p i / underlying_price i))
                (min_fee_decimal (token_config st)).

(** The delivery fee, capped like the trade fee by a share of the premium. *)
Definition delivery_fee (st : DeribitOptionMarket) (p : OptionPosition)
  (i : InstrumentStatus) : Decimal :=
  round_decimal
    (min (delivery_fee_rate (token_config st) * pos_amount p)
         (MAX_FEE_RATE
          * (pos_amount p
             * round_decimal (mark_price i) (min_fee_decimal (token_config st)))))
    (min_fee_decimal (token_config st)).

(** What the settlement of one position credits: [delivery_amount − fee] when
    the position is in the money and the delivery exceeds the fee, nothing
    otherwise. *)
Definition settlement_credit (st : DeribitOptionMarket) (p : OptionPosition)
  (i : InstrumentStatus) : Decimal :=
  if in_the_money p i && gtb (delivery_amount st p i) (delivery_fee st p i)
  then delivery_amount st p i - delivery_fee st p i
  else 0.

(** The fee of a trade of [amount] with premium [total_premium]:
    [min(trade_fee_rate × amount, max_fee_rate × total_premium)], rounded to
    the fee precision. *)
Definition trade_fee (st : DeribitOptionMarket)
  (amount total_premium : Decimal) : Decimal :=
  round_decimal
    (min (trade_fee_rate (token_config st) * amount)
         (MAX_FEE_RATE * total_premium))
    (min_fee_decimal (token_config st)).


(** No level of the book is negative. *)
Definition nonnegative_book (book : list BookOrder) : Prop :=
  Forall (fun o => 0 <= snd o) book.

(** The book of one side of an instrument, and its update. *)
Definition side (is_buy : bool) (i : InstrumentStatus) : list BookOrder :=
  if is_buy then asks i else bids i.
Definition set_side (is_buy : bool) (l : list BookOrder)
  : InstrumentStatus -> InstrumentStatus :=
  if is_buy then set_asks l else set_bids l.

(** [buy] or [sell]. *)
Definition trade (is_buy : bool)
  : string -> Decimal -> option Decimal -> option Decimal ->
    M DeribitOptionMarket (list Order) :=
  if is_buy then buy round_decimal else sell round_decimal.

(** The credit of one position: that of its settlement when it has expired
    and its instrument is quoted in the current status. *)
Definition position_credit (st : DeribitOptionMarket) (p : OptionPosition)
  : Decimal :=
  match status_data (market_status st) !! instrument_name p with
  | Some i => if expired st p then settlement_credit st p i else 0
  | None => 0
  end.

(** The credits of all the positions of a list. *)
Definition total_credit (st : DeribitOptionMarket)
  (items : list (string * OptionPosition)) : Decimal :=
  sum (map (fun e => position_credit st (snd e)) items).

(** Every expired position has a quote, with an underlying price that is not
    zero when the position is in the money. *)
Definition expired_quoted (st : DeribitOptionMarket)
  (items : list (string * OptionPosition)) : Prop :=
  forall k p,
    (k, p) ∈ items -> expired st p = true ->
    exists i,
      status_data (market_status st) !! instrument_name p = Some i
      /\ (in_the_money p i = true -> ~ underlying_price i == 0).

(** The keys of the expired positions, in order. *)
Definition expired_keys (st : DeribitOptionMarket)
  (l : list (string * OptionPosition)) : list string :=
  map fst (filter (fun e => expired st (snd e) = true) l).

(** Two states of one market that differ at most by the ledger, the
    positions and the recorded actions. *)
Definition same_market (st0 st : DeribitOptionMarket) : Prop :=
  token st = token st0 /\ token_config st = token_config st0
  /\ market_status st = market_status st0 /\ data st = data st0.

End Settlement.

(** *** A concrete rounding and a concrete market *)

(** Modelled from the spec: [round_decimal] of [deribit/helper.py] is not
    among the sources.  "Rounded to the venue's fee-precision": the nearest
    multiple of [10^exponent], ties to the even multiple as [Decimal.quantize]
    does. *)
Definition pow10 (e : Z) : Q :=
  if (e <? 0)%Z then 1 # Z.to_pos (10 ^ Z.opp e) else inject_Z (10 ^ e).

Definition round_half_even (x : Q) : Z :=
  let f := Qfloor x in
  let r := x - inject_Z f in
  if ltb r (1 # 2) then f
  else if ltb (1 # 2) r then (f + 1)%Z
       else if Z.even f then f else (f + 1)%Z.

Definition quantize (x : Decimal) (exponent : Z) : Decimal :=
  inject_Z (round_half_even (x / pow10 exponent)) * pow10 exponent.

(** A call on ETH, strike 100, expiring at time 2; ETH at 120. *)
Definition eth_call : InstrumentStatus :=
  {| state := "open"; type := call; expiry_time := 2; strike_price := 100;
     asks := [(1 # 10, 5); (2 # 10, 3)];
     bids := [(9 # 100, 4); (8 # 100, 6)];
     mark_price := 1 # 10; underlying_price := 120 |}.

(** The market at time [t] with this only instrument, 10 ETH and the given
    positions. *)
Definition market_at (t : Z) (l : list (string * OptionPosition))
  : DeribitOptionMarket :=
  {| token := "eth"; token_config := ETH_CONFIG; positions := l;
     data := Some {[ (t, "ETH-100-C") := eth_call ]};
     market_status :=
       {| timestamp := t; status_data := {[ "ETH-100-C" := eth_call ]} |};
     broker := Broker.mk false {[ "eth" := 10 ]};
     action_log := [] |}.

(** A position of 5 calls bought at 0.1. *)
Definition eth_call_position : OptionPosition :=
  {| instrument_name := "ETH-100-C"; pos_expiry_time := 2;
     pos_strike_price := 100; pos_type := call; pos_amount := 5;
     avg_buy_price := 1 # 10; buy_amount := 5;
     avg_sell_price := 0; sell_amount := 0 |}.

End Deribit.

(** ** The actuator ([demeter/core/actuator.py]) *)

Module Actuator.

Definition Timestamp : Type := Z.
Bind Scope Z_scope with Timestamp.

Definition MarketInfo : Type := string.

(** The row of prices of one timestamp, by column. *)
Definition Row : Type := list Decimal.

(** A table of prices: the names of its columns and its rows in order, each
    with its timestamp. *)
Record PriceFrame : Type := mkFrame {
  columns : list string;
  rows : list (Timestamp * Row)
}.

Definition index (p : PriceFrame) : list Timestamp := map fst (rows p).

(** [prices.loc[t]] *)
Definition loc (t : Timestamp) (p : PriceFrame) : res Row :=
  match find (fun r => (fst r =? t)%Z) (rows p) with
  | Some r => Val (snd r)
  | None => Exc KeyError
  end.

(** [pd.concat([p, q])]: the rows of [q] after those of [p]. *)
Definition concat (p q : PriceFrame) : PriceFrame :=
  {| columns :=
       columns p
       ++ filter (fun c => c ∉ columns p) (columns q);
     rows := rows p ++ rows q |}.

(** [l[i]] on a Python list or on an index. *)
Definition nth_item {A} (l : list A) (i : nat) : res A :=
  match l !! i with
  | Some x => Val x
  | None => Exc IndexError
  end.

(** [List.count(l, x)] *)
Definition count (l : list Z) (x : Z) : nat :=
  length (filter (fun y => y = x) l).

Section Model.

(** [W] is the state that the broker, the markets and the strategy own;
    [View] is what a market shows as the data of its current status; [A] is
    what an action holds besides its timestamp. *)
Context {W View A : Type}.

Record BaseAction : Type := mkAction {
  action_timestamp : option Timestamp;
  payload : A
}.

(** Modelled from the spec: [AccountStatus] and [Broker.get_account_status]
    are not among the sources.  Section 3: the snapshot of one tick, the net
    value of the ledger and of the markets, taken for a timestamp. *)
Record AccountStatus : Type := mkAccount {
  as_timestamp : option Timestamp;
  net_value : Decimal
}.

Record Currents : Type := mkCurrents {
  actions : list BaseAction;
  timestamp : option Timestamp
}.

(** A call into a market or into the strategy: it may change [W], may record
    actions through the broker, and may raise; the actions recorded before a
    raise are kept. *)
Definition Eff (B : Type) : Type := W -> list A * outcome W B.

(** What the actuator calls of a market.  [price_from_data] is
    [get_price_from_data()] for a [UniLpMarket] and [None] for another
    market. *)
Record Market : Type := mkMarket {
  data_index : list Timestamp;
  price_from_data : option (res PriceFrame);
  check_market : W -> res unit;
  has_update : W -> bool;
  set_market_status : Timestamp -> Row -> W -> res W;
  market_status_data : W -> View;
  update : Eff unit
}.

Record RowData : Type := mkRowData {
  row_timestamp : Timestamp;
  row_id : nat;
  prices : Row;
  market_status : list (MarketInfo * View);
  default_status_key : option MarketInfo
}.

(** What the strategy can read of the actuator: [init_strategy] hands it the
    lists themselves. *)
Record Shared : Type := mkShared {
  shared_account_status : list AccountStatus;
  shared_actions : list BaseAction
}.

Record Trigger : Type := mkTrigger {
  when_ : Shared -> RowData -> W -> res bool;
  do_ : Shared -> RowData -> Eff unit
}.

Record Strategy : Type := mkStrategy {
  initialize : Shared -> Eff unit;
  triggers : list Trigger;
  on_bar : Shared -> RowData -> Eff unit;
  after_bar : Shared -> RowData -> Eff unit;
  notify_ : Shared -> BaseAction -> W -> outcome W unit;
  finalize : Shared -> Eff unit
}.

(** What a run does not change: the markets of the broker in the order of
    their registration, the key of the default market, the names of the
    tokens of the ledger, the valuation of the broker and the strategy. *)
Record Setup : Type := mkSetup {
  markets : list (MarketInfo * Market);
  default_key : option MarketInfo;
  assets : list string;
  valuation : Row -> W -> res Decimal;
  strategy : Strategy
}.

Record Actuator : Type := mkActuator {
  _action_list : list BaseAction;
  _currents : Currents;
  _account_status_list : list AccountStatus;
  _account_status_df : option (list AccountStatus);
  _token_prices : option PriceFrame;
  _enabled_evaluator : list string;
  _evaluator : option (AccountStatus * list AccountStatus);
  __backtest_finished : bool;
  world : W
}.

Definition with_action_list (l : list BaseAction) (s : Actuator) : Actuator :=
  {| _action_list := l; _currents := _currents s;
     _account_status_list := _account_status_list s;
     _account_status_df := _account_status_df s;
     _token_prices := _token_prices s;
     _enabled_evaluator := _enabled_evaluator s; _evaluator := _evaluator s;
     __backtest_finished := __backtest_finished s; world := world s |}.
Definition with_currents (c : Currents) (s : Actuator) : Actuator :=
  {| _action_list := _action_list s; _currents := c;
     _account_status_list := _account_status_list s;
     _account_status_df := _account_status_df s;
     _token_prices := _token_prices s;
     _enabled_evaluator := _enabled_evaluator s; _evaluator := _evaluator s;
     __backtest_finished := __backtest_finished s; world := world s |}.
Definition with_account_status_list (l : list AccountStatus) (s : Actuator)
  : Actuator :=
  {| _action_list := _action_list s; _currents := _currents s;
     _account_status_list := l;
     _account_status_df := _account_status_df s;
     _token_prices := _token_prices s;
     _enabled_evaluator := _enabled_evaluator s; _evaluator := _evaluator s;
     __backtest_finished := __backtest_finished s; world := world s |}.
Definition with_account_status_df (d : option (list AccountStatus))
  (s : Actuator) : Actuator :=
  {| _action_list := _action_list s; _currents := _currents s;
     _account_status_list := _account_status_list s;
     _account_status_df := d;
     _token_prices := _token_prices s;
     _enabled_evaluator := _enabled_evaluator s; _evaluator := _evaluator s;
     __backtest_finished := __backtest_finished s; world := world s |}.
Definition with_token_prices (p : option PriceFrame) (s : Actuator)
  : Actuator :=
  {| _action_list := _action_list s; _currents := _currents s;
     _account_status_list := _account_status_list s;
     _account_status_df := _account_status_df s;
     _token_prices := p;
     _enabled_evaluator := _enabled_evaluator s; _evaluator := _evaluator s;
     __backtest_finished := __backtest_finished s; world := world s |}.
Definition with_enabled_evaluator (l : list string) (s : Actuator)
  : Actuator :=
  {| _action_list := _action_list s; _currents := _currents s;
     _account_status_list := _account_status_list s;
     _account_status_df := _account_status_df s;
     _token_prices := _token_prices s;
     _enabled_evaluator := l; _evaluator := _evaluator s;
     __backtest_finished := __backtest_finished s; world := world s |}.
Definition with_evaluator (e : option (AccountStatus * list AccountStatus))
  (s : Actuator) : Actuator :=
  {| _action_list := _action_list s; _currents := _currents s;
     _account_status_list := _account_status_list s;
     _account_status_df := _account_status_df s;
     _token_prices := _token_prices s;
     _enabled_evaluator := _enabled_evaluator s; _evaluator := e;
     __backtest_finished := __backtest_finished s; world := world s |}.
Definition with_backtest_finished (b : bool) (s : Actuator) : Actuator :=
  {| _action_list := _action_list s; _currents := _currents s;
     _account_status_list := _account_status_list s;
     _account_status_df := _account_status_df s;
     _token_prices := _token_prices s;
     _enabled_evaluator := _enabled_evaluator s; _evaluator := _evaluator s;
     __backtest_finished := b; world := world s |}.
Definition with_world (w : W) (s : Actuator) : Actuator :=
  {| _action_list := _action_list s; _currents := _currents s;
     _account_status_list := _account_status_list s;
     _account_status_df := _account_status_df s;
     _token_prices := _token_prices s;
     _enabled_evaluator := _enabled_evaluator s; _evaluator := _evaluator s;
     __backtest_finished := __backtest_finished s; world := w |}.

Definition reads {B} (f : Actuator -> res B) : M Actuator B :=
  fun s => lift (f s) s.

(** [_record_action_list]: the action takes the current timestamp and goes to
    the action list and to the actions of the current tick. *)
Definition _record_action_list (a : A) : M Actuator unit :=
  modify (fun s =>
    let action := {| action_timestamp := timestamp (_currents s);
                     payload := a |} in
    with_currents
      {| actions := actions (_currents s) ++ [action];
         timestamp := timestamp (_currents s) |}
      (with_action_list (_action_list s ++ [action]) s)).

Fixpoint record_all (l : list A) : M Actuator unit :=
  match l with
  | [] => ret tt
  | a :: l => (do _ <- _record_action_list a ;; record_all l)%monad
  end.

(** A call into a market or the strategy, from the actuator. *)
Definition perform {B} (c : Eff B) : M Actuator B :=
  fun s =>
    let r := c (world s) in
    match record_all (fst r) s with
    | Ok _ s1 =>
        match snd r with
        | Ok b w => Ok b (with_world w s1)
        | Raised e w => Raised e (with_world w s1)
        end
    | Raised e s1 => Raised e s1
    end.

Definition shared (s : Actuator) : Shared :=
  {| shared_account_status := _account_status_list s;
     shared_actions := _action_list s |}.

Definition reset : M Actuator unit :=
  modify (fun s =>
    with_account_status_df None
      (with_backtest_finished false
         (with_account_status_list []
            (with_currents {| actions := []; timestamp := None |}
               (with_action_list []
                  (with_enabled_evaluator []
                     (with_evaluator None s))))))).

Definition set_price (p : PriceFrame) : M Actuator unit :=
  modify (fun s =>
    match _token_prices s with
    | None => with_token_prices (Some p) s
    | Some q => with_token_prices (Some (concat q p)) s
    end).


(** The computation leaves the current timestamp as it is, and the action
    list as it is but for actions that it appends, each with the current
    timestamp. *)
Definition stamps {B} (c : M Actuator B) : Prop :=
  forall s,
    let s' := final_state (c s) in
    timestamp (_currents s') = timestamp (_currents s)
    /\ exists new,
         _action_list s' = _action_list s ++ new
         /\ Forall (fun a => action_timestamp a = timestamp (_currents s)) new.

Context (setup : Setup).

(** [self._broker.markets.default]: the declaration of [MarketDict] is not
    among the sources; the default market is the one of the default key. *)
Definition default_market : res Market :=
  match default_key setup with
  | Some k =>
      match find (fun m => String.eqb (fst m) k) (markets setup) with
      | Some m => Val (snd m)
      | None => Exc KeyError
      end
  | None => Exc KeyError
  end.

Fixpoint fill_prices (ms : list (MarketInfo * Market)) : M Actuator unit :=
  match ms with
  | [] => ret tt
  | m :: ms =>
      (do _ <- match price_from_data (snd m) with
               | Some r => do p <- lift r ;; set_price p
               | None => ret tt
               end ;;
       fill_prices ms)%monad
  end.

Fixpoint check_tokens (tokens : list string) (p : PriceFrame) : res unit :=
  match tokens with
  | [] => Val tt
  | t :: tokens =>
      if bool_decide (t ∈ columns p)
      then check_tokens tokens p
      else Exc (DemeterError ("Price of " ++ t ++ " has not set yet"))
  end.

Fixpoint check_markets (ms : list (MarketInfo * Market)) (w : W)
  : res (list Z) :=
  match ms with
  | [] => Val []
  | m :: ms =>
      (do _ <- check_market (snd m) w ;;
       do l <- check_markets ms w ;;
       Val (Z.of_nat (length (data_index (snd m))) :: l))%res
  end.

Fixpoint intervals (ms : list (MarketInfo * Market)) : res (list Z) :=
  match ms with
  | [] => Val []
  | m :: ms =>
      (do t1 <- nth_item (data_index (snd m)) 1 ;;
       do t0 <- nth_item (data_index (snd m)) 0 ;;
       do l <- intervals ms ;;
       Val ((t1 - t0)%Z :: l))%res
  end.

Definition _check_backtest : M Actuator unit :=
  (* ensure a market exist *)
  (if (length (markets setup) <? 1)%nat
   then raise (DemeterError "No market assigned")
   else
     (* ensure all token has price list. *)
     do s <- get ;;
     do _ <- match _token_prices s with
             | None => fill_prices (markets setup)
             | Some _ => ret tt
             end ;;
     do s <- get ;;
     match _token_prices s with
     | None => raise (DemeterError "token prices is not set")
     | Some token_prices =>
         do _ <- lift (check_tokens (assets setup) token_prices) ;;
         do data_length <- lift (check_markets (markets setup) (world s)) ;;
         (* ensure data length same *)
         do first_length <- lift (nth_item data_length 0) ;;
         if negb (count data_length first_length =? length data_length)%nat
         then raise (DemeterError "data length among markets are not same")
         else
           do default <- lift default_market ;;
           do p_first <- lift (nth_item (index token_prices) 0) ;;
           do d_first <- lift (nth_item (data_index default) 0) ;;
           do covers <-
             (if (d_first <? p_first)%Z then ret false
              else
                do p_last <- lift (nth_item (rev (index token_prices)) 0) ;;
                do d_last <- lift (nth_item (rev (data_index default)) 0) ;;
                ret (negb (p_last <? d_last)%Z)) ;;
           if negb covers
           then raise (DemeterError "Time range of price doesn't cover market data")
           else
             let length := first_length in
             (* ensure data interval same *)
             if (1 <? length)%Z
             then
               do data_interval <- lift (intervals (markets setup)) ;;
               do first_interval <- lift (nth_item data_interval 0) ;;
               if negb (count data_interval first_interval
                        =? List.length data_interval)%nat
               then raise (DemeterError "data interval among markets are not same")
               else
                 do p1 <- lift (nth_item (index token_prices) 1) ;;
                 do p0 <- lift (nth_item (index token_prices) 0) ;;
                 if negb ((p1 - p0) =? first_interval)%Z
                 then raise (DemeterError
                               "price list interval and data interval are not same")
                 else ret tt
             else ret tt
     end)%monad.

(** [self._token_prices.loc[t]] *)
Definition price_at (t : Timestamp) : M Actuator Row :=
  reads (fun s => match _token_prices s with
                  | Some p => loc t p
                  | None => Exc AttributeError
                  end).

(** [__set_row_to_markets] *)
Fixpoint set_rows (ms : list (MarketInfo * Market)) (t : Timestamp)
  (update : bool) : M Actuator unit :=
  match ms with
  | [] => ret tt
  | m :: ms =>
      (do s <- get ;;
       do _ <-
         (if negb update || (update && has_update (snd m) (world s))
          then
            do price <- price_at t ;;
            do w <- lift (set_market_status (snd m) t price (world s)) ;;
            modify (with_world w)
          else ret tt) ;;
       set_rows ms t update)%monad
  end.

Definition __set_row_to_markets (t : Timestamp) (update : bool)
  : M Actuator unit :=
  set_rows (markets setup) t update.

Definition __get_row_data (t : Timestamp) (row_id : nat) (current_price : Row)
  (s : Actuator) : RowData :=
  {| row_timestamp := t; row_id := row_id; prices := current_price;
     market_status :=
       map (fun m => (fst m, market_status_data (snd m) (world s)))
           (markets setup);
     default_status_key := default_key setup |}.

(** [Broker.get_account_status(prices, timestamp)] *)
Definition get_account_status (prices : Row) (t : option Timestamp)
  : M Actuator AccountStatus :=
  (do s <- get ;;
   do v <- lift (valuation setup prices (world s)) ;;
   ret {| as_timestamp := t; net_value := v |})%monad.

Fixpoint run_triggers (ts : list Trigger) (row_data : RowData)
  : M Actuator unit :=
  match ts with
  | [] => ret tt
  | t :: ts =>
      (do s <- get ;;
       do fires <- lift (when_ t (shared s) row_data (world s)) ;;
       do _ <- when fires (perform (do_ t (shared s) row_data)) ;;
       run_triggers ts row_data)%monad
  end.

Fixpoint update_all (ms : list (MarketInfo * Market)) : M Actuator unit :=
  match ms with
  | [] => ret tt
  | m :: ms => (do _ <- perform (update (snd m)) ;; update_all ms)%monad
  end.

(** [notify]: the strategy is told of every action of the list.  The list is
    the one that [_record_action_list] extends, so the notification of the
    strategy is a call that records no action: [notify_] has no way to. *)
Fixpoint notify (l : list BaseAction) : M Actuator unit :=
  match l with
  | [] => ret tt
  | a :: l =>
      (do s <- get ;;
       do _ <- perform (fun w => ([], notify_ (strategy setup) (shared s) a w)) ;;
       notify l)%monad
  end.

(** The body of the main loop, for one timestamp. *)
Definition tick (timestamp_index : Timestamp) (row_id : nat)
  : M Actuator unit :=
  (do current_price <- price_at timestamp_index ;;
   (* prepare data of a row *)
   do _ <- __set_row_to_markets timestamp_index false ;;
   (* execute strategy, and some calculate *)
   do _ <- modify (fun s =>
             with_currents {| actions := actions (_currents s);
                              timestamp := Some timestamp_index |} s) ;;
   do s <- get ;;
   let row_data := __get_row_data timestamp_index row_id current_price s in
   do _ <- run_triggers (triggers (strategy setup)) row_data ;;
   do s <- get ;;
   do _ <- perform (on_bar (strategy setup) (shared s) row_data) ;;
   do _ <- __set_row_to_markets timestamp_index true ;;
   (* update broker status, eg: re-calculate fee *)
   do _ <- update_all (markets setup) ;;
   do s <- get ;;
   let row_data := __get_row_data timestamp_index row_id current_price s in
   do _ <- perform (after_bar (strategy setup) (shared s) row_data) ;;
   do status <- get_account_status current_price (Some timestamp_index) ;;
   do _ <- modify (fun s =>
             with_account_status_list (_account_status_list s ++ [status]) s) ;;
   (* notify actions in current loop *)
   do s <- get ;;
   do _ <- notify (actions (_currents s)) ;;
   modify (fun s =>
     with_currents {| actions := []; timestamp := timestamp (_currents s) |} s)
  )%monad.

Fixpoint main_loop (index_array : list Timestamp) (row_id : nat)
  : M Actuator unit :=
  match index_array with
  | [] => ret tt
  | timestamp_index :: rest =>
      (do _ <- tick timestamp_index row_id ;; main_loop rest (S row_id))%monad
  end.

Definition init_strategy : M Actuator unit :=
  (do s <- get ;; perform (initialize (strategy setup) (shared s)))%monad.

(** [run] up to the end of the main loop; the value is the initial account
    status, kept for the evaluation. *)
Definition run_main (evaluator : option (list string))
  : M Actuator AccountStatus :=
  (let evaluator := default [] evaluator in
   do _ <- reset ;;
   do _ <- modify (with_enabled_evaluator evaluator) ;;
   do _ <- _check_backtest ;;
   do first <- lift (nth_item (markets setup) 0) ;;
   let index_array := data_index (snd first) in
   (* set initial status for strategy *)
   do t0 <- lift (nth_item index_array 0) ;;
   do _ <- __set_row_to_markets t0 false ;;
   (* keep initial balance for evaluating *)
   do s <- get ;;
   do head <- lift (match _token_prices s with
                    | Some p => nth_item (rows p) 0
                    | None => Exc AttributeError
                    end) ;;
   do init_account_status <- get_account_status (snd head) None ;;
   do _ <- init_strategy ;;
   do _ <- main_loop index_array 0 ;;
   ret init_account_status)%monad.

Definition run (evaluator : option (list string)) (output : bool)
  : M Actuator unit :=
  (do init_account_status <- run_main evaluator ;;
   do _ <- modify (fun s =>
             with_account_status_df (Some (_account_status_list s)) s) ;;
   do s <- get ;;
   do _ <- when (0 <? length (_enabled_evaluator s))%nat
             (modify (with_evaluator
                        (Some (init_account_status, _account_status_list s)))) ;;
   do s <- get ;;
   do _ <- perform (finalize (strategy setup) (shared s)) ;;
   modify (with_backtest_finished true))%monad.

(** *** The validation in the words of the specification *)

(** The price table that the validation uses: the one that was set, or the
    one taken from the pool markets. *)
Definition resolved_prices (s : Actuator) : option PriceFrame :=
  match _token_prices s with
  | Some p => Some p
  | None => _token_prices (final_state (fill_prices (markets setup) s))
  end.

(** The interval of an index: the difference of its first two timestamps. *)
Definition interval (idx : list Timestamp) : option Z :=
  match idx with
  | t0 :: t1 :: _ => Some (t1 - t0)%Z
  | _ => None
  end.

(** The price table spans the range of an index. *)
Definition spans (p : PriceFrame) (idx : list Timestamp) : Prop :=
  exists p_first p_last d_first d_last,
    head (index p) = Some p_first /\ last (index p) = Some p_last
    /\ head idx = Some d_first /\ last idx = Some d_last
    /\ (p_first <= d_first)%Z /\ (d_last <= p_last)%Z.

(** What holds of a price table [p] when the validation succeeds. *)
Record valid (p : PriceFrame) : Prop := mkValid {
  has_market : markets setup <> [];
  tokens_priced : forall t, t ∈ assets setup -> t ∈ columns p;
  same_rows :
    forall m1 m2, m1 ∈ markets setup -> m2 ∈ markets setup ->
                  length (data_index (snd m1)) = length (data_index (snd m2));
  default_spanned :
    exists d, default_market = Val d /\ spans p (data_index d);
  same_interval :
    forall m1 m2, m1 ∈ markets setup -> m2 ∈ markets setup ->
                  (1 < length (data_index (snd m1)))%nat ->
                  interval (data_index (snd m1)) = interval (data_index (snd m2))
                  /\ interval (index p) = interval (data_index (snd m1))
}.


(** The same with the range of every market, as the specification has it. *)
Definition spans_every_market (p : PriceFrame) : Prop :=
  forall m, m ∈ markets setup -> spans p (data_index (snd m)).

End Model.


Arguments BaseAction A : clear implicits.
Arguments Eff W A B : clear implicits.
Arguments Market W View A : clear implicits.
Arguments Strategy W View A : clear implicits.
Arguments Trigger W View A : clear implicits.
Arguments Setup W View A : clear implicits.
Arguments Actuator W A : clear implicits.

(** *** A concrete run *)

(** A market over the given index that does nothing; the state of the world
    counts the calls of the strategy. *)
Definition plain_market (idx : list Timestamp) : Market nat unit string :=
  {| data_index := idx;
     price_from_data := None;
     check_market := fun _ => Val tt;
     has_update := fun _ => false;
     set_market_status := fun _ _ w => Val w;
     market_status_data := fun _ => tt;
     update := fun w => ([], Ok tt w) |}.

(** A strategy that records one action at every bar. *)
Definition plain_strategy : Strategy nat unit string :=
  {| initialize := fun _ w => ([], Ok tt w);
     triggers := [];
     on_bar := fun _ _ w => (["buy"%string], Ok tt (S w));
     after_bar := fun _ _ w => ([], Ok tt w);
     notify_ := fun _ _ w => Ok tt w;
     finalize := fun _ w => ([], Ok tt w) |}.

Definition plain_setup (ms : list (MarketInfo * Market nat unit string))
  : Setup nat unit string :=
  {| markets := ms;
     default_key := fst <$> head ms;
     assets := ["eth"%string];
     valuation := fun _ _ => Val 0;
     strategy := plain_strategy |}.

Definition plain_prices (idx : list Timestamp) : PriceFrame :=
  {| columns := ["eth"%string]; rows := map (fun t => (t, [1])) idx |}.

(** An actuator before its run, with a price table. *)
Definition fresh (p : option PriceFrame) : Actuator nat string :=
  {| _action_list := []; _currents := {| actions := []; timestamp := None |};
     _account_status_list := []; _account_status_df := None;
     _token_prices := p; _enabled_evaluator := []; _evaluator := None;
     __backtest_finished := false; world := 0%nat |}.

(** One market with three rows. *)
Definition one_market : Setup nat unit string :=
  plain_setup [("m"%string, plain_market [10; 20; 30]%Z)].

(** Two markets with two rows each, one minute apart, at different times;
    the first one is the default market. *)
Definition two_markets : Setup nat unit string :=
  plain_setup [("a"%string, plain_market [0; 1]%Z);
               ("b"%string, plain_market [10; 11]%Z)].

End Actuator.

(** ** The lending pool library ([demeter/aave/core.py]) *)

Module Aave.

(** The columns of the risk parameters that the library reads. *)
Record RiskParameter : Type := mkRisk {
  LTV : Decimal;
  liqThereshold : Decimal
}.

(** [risk_parameters.loc[name]] *)
Definition risk_loc (name : string) (risk_parameters : gmap string RiskParameter)
  : res RiskParameter :=
  match risk_parameters !! name with
  | Some r => Val r
  | None => Exc KeyError
  end.

(** A dictionary of supplies or of borrows: the name of the token of each key
    with the amount, in the order of insertion. *)
Definition Amounts : Type := list (string * Decimal).

Definition get_current_amount (net_value_in_pool current_liquidity_rate : Decimal)
  : Decimal :=
  net_value_in_pool * current_liquidity_rate.

Definition get_base_amount (amount pool_liquidity_rate : Decimal) : res Decimal :=
  div amount pool_liquidity_rate.

Definition safe_div (a b : Decimal) : Decimal :=
  if eqb b 0 then 0 else a / b.

(** The list [[s * risk_parameters.loc[key.token.name].liqThereshold ...]]. *)
Fixpoint threshold_values (supplies : Amounts)
  (risk_parameters : gmap string RiskParameter) : res (list Decimal) :=
  match supplies with
  | [] => Val []
  | (key, s) :: supplies =>
      (do r <- risk_loc key risk_parameters ;;
       do l <- threshold_values supplies risk_parameters ;;
       Val (s * liqThereshold r :: l))%res
  end.

Definition health_factor (supplies borrows : Amounts)
  (risk_parameters : gmap string RiskParameter) : res Decimal :=
  (do l <- threshold_values supplies risk_parameters ;;
   let a := sum l in
   let b := sum (map snd borrows) in
   Val (safe_div a b))%res.

(** The loop of [current_ltv], from the value [all_supplies]. *)
Fixpoint ltv_loop (supplies : Amounts)
  (risk_parameters : gmap string RiskParameter) (all_supplies : Decimal)
  : res Decimal :=
  match supplies with
  | [] => Val all_supplies
  | (t, s) :: supplies =>
      (do r <- risk_loc t risk_parameters ;;
       ltv_loop supplies risk_parameters (all_supplies + s * LTV r))%res
  end.

Definition current_ltv (supplies : Amounts)
  (risk_parameters : gmap string RiskParameter) : res Decimal :=
  (do all_supplies <- ltv_loop supplies risk_parameters 0 ;;
   let amount := sum (map snd supplies) in
   Val (safe_div all_supplies amount))%res.

(** The loop of [total_liquidation_threshold], from [sum_amount] and
    [rate]. *)
Fixpoint threshold_loop (supplies : Amounts)
  (risk_parameters : gmap string RiskParameter) (sum_amount rate : Decimal)
  : res (Decimal * Decimal) :=
  match supplies with
  | [] => Val (sum_amount, rate)
  | (t, s) :: supplies =>
      (do r <- risk_loc t risk_parameters ;;
       threshold_loop supplies risk_parameters
         (sum_amount + s) (rate + s * liqThereshold r))%res
  end.

Definition total_liquidation_threshold (supplies : Amounts)
  (risk_parameters : gmap string RiskParameter) : res Decimal :=
  (do r <- threshold_loop supplies risk_parameters 0 0 ;;
   Val (safe_div (snd r) (fst r)))%res.






(** Risk parameters and supplies for two tokens. *)
Definition two_tokens : gmap string RiskParameter :=
  {[ "eth"%string := {| LTV := 80 # 100; liqThereshold := 825 # 1000 |};
     "usdc"%string := {| LTV := 77 # 100; liqThereshold := 80 # 100 |} ]}.


End Aave.

(** * Facts about decimals and the ledger *)

Lemma leb_le a b : leb a b = true <-> a <= b.
Proof. apply Qle_bool_iff. Qed.

Lemma geb_ge a b : geb a b = true <-> b <= a.
Proof. apply Qle_bool_iff. Qed.

Lemma ltb_lt a b : ltb a b = true <-> a < b.
Proof.
  unfold ltb. rewrite negb_true_iff, <- not_true_iff_false, Qle_bool_iff.
  split; [apply Qnot_le_lt | apply Qlt_not_le].
Qed.

Lemma gtb_gt a b : gtb a b = true <-> b < a.
Proof. apply ltb_lt. Qed.

Lemma gtb_le a b : gtb a b = false <-> a <= b.
Proof. unfold gtb. rewrite negb_false_iff. apply Qle_bool_iff. Qed.

Lemma ltb_ge a b : ltb a b = false <-> b <= a.
Proof.
  unfold ltb. rewrite negb_false_iff. apply Qle_bool_iff.
Qed.

Lemma geb_lt a b : geb a b = false <-> a < b.
Proof.
  unfold geb. rewrite <- not_true_iff_false, Qle_bool_iff.
  split; [apply Qnot_le_lt | apply Qlt_not_le].
Qed.

Lemma eqb_eq a b : eqb a b = true <-> a == b.
Proof. apply Qeq_bool_iff. Qed.

Lemma eqb_neq a b : eqb a b = false <-> ~ a == b.
Proof.
  unfold eqb. rewrite <- not_true_iff_false, Qeq_bool_iff. tauto.
Qed.

Lemma div_nonzero a b : ~ b == 0 -> div a b = Val (a / b).
Proof. intros Hb. unfold div. apply eqb_neq in Hb. by rewrite Hb. Qed.

Lemma div_zero a b : b == 0 -> div a b = Exc ArithmeticError.
Proof. intros Hb. unfold div. apply eqb_eq in Hb. by rewrite Hb. Qed.

Lemma balance_add_same tok amount b :
  Broker.get_token_balance tok (Broker.add_to_balance tok amount b)
  = Broker.get_token_balance tok b + amount.
Proof. unfold Broker.get_token_balance at 1; simpl. by rewrite lookup_insert_eq. Qed.

Lemma balance_add_other tok tok' amount b :
  tok <> tok' ->
  Broker.get_token_balance tok' (Broker.add_to_balance tok amount b)
  = Broker.get_token_balance tok' b.
Proof.
  intros Hne. unfold Broker.get_token_balance; simpl. by rewrite lookup_insert_ne.
Qed.

Lemma balance_subtract_same tok amount b b' :
  Broker.subtract_from_balance tok amount b = Val b' ->
  Broker.get_token_balance tok b' = Broker.get_token_balance tok b - amount.
Proof.
  unfold Broker.subtract_from_balance.
  destruct (_ && _); [discriminate |].
  intros [= <-]. unfold Broker.get_token_balance at 1; simpl.
  by rewrite lookup_insert_eq.
Qed.


(** * Properties of the vault market *)

Module SqueethSpec.

Import Squeeth.

Section Safety.

Context {Pool : Type} `{UniLpMarket Pool}.

Implicit Types (st : SqueethMarket Pool) (k : VaultKey) (v : Vault).

Lemma vault_at_Some st k v : vault st !! k = Some v -> vault_at k st = Val v.
Proof. unfold vault_at. by intros ->. Qed.

(** Without an attached position the effective collateral is the vault's own
    collateral, as soon as the price is not zero. *)
Lemma effective_collateral_no_nft st k v nf eth :
  vault st !! k = Some v -> uni_nft_id v = None -> ~ eth == 0 ->
  _get_effective_collateral_in_eth k (Some nf) (Some eth) st
  = Val (0 + (0 * nf) / eth + collateral_amount v).
Proof.
  intros Hv Hn He. unfold _get_effective_collateral_in_eth.
  rewrite (vault_at_Some _ _ _ Hv). cbn [rbind]. rewrite Hn. cbn [rbind snd fst].
  by rewrite div_nonzero.
Qed.







(** [_check_vault] decides on the status [(is_safe, is_dust)] alone. *)
Lemma check_vault_cases st k nf is_safe is_dust :
  _get_vault_status k nf st = Val (is_safe, is_dust) ->
  _check_vault k nf st
  = if negb is_safe
    then Raised (DemeterError "Vault collateral rate is not safe") st
    else if negb is_dust
         then Raised (DemeterError "Vault collateral is below dust") st
         else Ok tt st.
Proof.
  intros E. unfold _check_vault, bind, reads, lift. rewrite E.
  by destruct is_safe, is_dust.
Qed.

End Safety.

(** ** Concrete vaults *)




End SqueethSpec.

(** * Properties of the option market *)

Module DeribitSpec.

Import Deribit.

(** Steps through the monadic code of a hypothesis or of the goal. *)
Ltac mstep :=
  unfold bind, reads, lift, get, modify, ret, raise, when in *;
  cbn beta iota in *.

Section Trade.

Context (round_decimal : Decimal -> Z -> Decimal).

Implicit Types (st : DeribitOptionMarket).

Abbreviation balance st := (Broker.get_token_balance (token st) (broker st)).


Lemma stored_book_frame is_buy name book st :
  let st1 := stored_book is_buy name book st in
  broker st1 = broker st /\ token st1 = token st
  /\ token_config st1 = token_config st
  /\ positions st1 = positions st
  /\ action_log st1 = action_log st.
Proof.
  unfold stored_book, set_side. cbv zeta.
  destruct (data st) eqn:E; cbn; rewrite ?E; repeat split.
Qed.


Lemma buy_ok name amount pt pu st fills st' :
  buy round_decimal name amount pt pu st = Ok fills st' ->
  exists a ins p,
    _check_transaction round_decimal name amount pt pu true st = Val (a, ins, p)
    /\ fills = snd (_deduct_order_amount a (asks ins) p)
    /\ Broker.subtract_from_balance
         (token st)
         (total_premium_of fills + trade_fee round_decimal st a (total_premium_of fills))
         (broker st) = Val (broker st')
    /\ token st' = token st.
Proof.
  unfold buy. mstep.
  destruct (_check_transaction _ _ _ _ _ _ _) as [[[a ins] p]|e]; [| done].
  unfold store_book. mstep.
  destruct (stored_book_frame true name (_deduct_order_amount a (asks ins) p).1 st)
    as (Hb & Ht & Hc & Hp & Hl).
  revert Hb Ht Hc Hp Hl. generalize (stored_book true name (_deduct_order_amount a (asks ins) p).1 st).
  intros st1 Hb Ht Hc Hp Hl.
  unfold get_trade_fee, decimal, trade_fee. rewrite Hb, Ht, Hc.
  destruct (Broker.subtract_from_balance _ _ _) as [b|e] eqn:Es; [| done].
  destruct (get_average_price _) as [avg|e]; [| done].
  rewrite Hp.
  destruct (pos_lookup name (positions st)) as [pos|].
  - destruct (get_average_price _) as [avg'|e]; [| done].
    unfold _record_action, modify. intros [= <- <-].
    exists a, ins, p. cbn. rewrite Ht. by rewrite <- Es.
  - unfold _record_action, modify. intros [= <- <-].
    exists a, ins, p. cbn. rewrite Ht. by rewrite <- Es.
Qed.

Lemma sell_ok name amount pt pu st fills st' :
  sell round_decimal name amount pt pu st = Ok fills st' ->
  exists a ins p,
    _check_transaction round_decimal name amount pt pu false st
    = Val (a, ins, p)
    /\ fills = snd (_deduct_order_amount a (bids ins) p)
    /\ broker st'
       = Broker.add_to_balance
           (token st)
           (total_premium_of fills - trade_fee round_decimal st a (total_premium_of fills))
           (broker st)
    /\ token st' = token st.
Proof.
  unfold sell. mstep.
  destruct (_check_transaction _ _ _ _ _ _ _) as [[[a ins] p]|e]; [| done].
  unfold store_book. mstep.
  destruct (stored_book_frame false name (_deduct_order_amount a (bids ins) p).1 st)
    as (Hb & Ht & Hc & Hp & Hl).
  revert Hb Ht Hc Hp Hl. generalize (stored_book false name (_deduct_order_amount a (bids ins) p).1 st).
  intros st1 Hb Ht Hc Hp Hl.
  unfold get_trade_fee, decimal, trade_fee. rewrite Hb, Ht, Hc.
  destruct (get_average_price _) as [avg|e]; [| done].
  rewrite Hp.
  destruct (pos_lookup name (positions st)) as [pos|]; [| done].
  destruct (get_average_price _) as [avg'|e]; [| done].
  unfold _record_action, modify. intros [= <- <-].
  exists a, ins, p. cbn. by rewrite Ht.
Qed.

(** C8.  A trade that succeeds is charged the fee
    [min(trade_fee_rate × amount, max_fee_rate × total_premium)], rounded to
    the fee precision of the market; [buy] takes [total_premium + fee] from
    the balance of the settlement token and [sell] adds
    [total_premium − fee] to it.  [amount] is the traded amount that
    [_check_transaction] returns and [total_premium] is the premium of the
    returned orders. *)
Theorem trade_fee_debit_credit name amount pt pu st fills st' :
  let total_premium := total_premium_of fills in
  (buy round_decimal name amount pt pu st = Ok fills st' ->
   exists a ins p,
     _check_transaction round_decimal name amount pt pu true st
     = Val (a, ins, p)
     /\ balance st'
        = balance st - (total_premium + trade_fee round_decimal st a total_premium))
  /\ (sell round_decimal name amount pt pu st = Ok fills st' ->
      exists a ins p,
        _check_transaction round_decimal name amount pt pu false st
        = Val (a, ins, p)
        /\ balance st'
           = balance st + (total_premium - trade_fee round_decimal st a total_premium)).
Proof.
  intros tp. split; intros Hok.
  - destruct (buy_ok _ _ _ _ _ _ _ Hok) as (a & ins & p & Hc & _ & Hs & Ht).
    exists a, ins, p. split; [exact Hc |].
    rewrite Ht. by apply balance_subtract_same.
  - destruct (sell_ok _ _ _ _ _ _ _ Hok) as (a & ins & p & Hc & _ & Hs & Ht).
    exists a, ins, p. split; [exact Hc |].
    rewrite Ht, Hs. apply balance_add_same.
Qed.

(** *** Matching at a given price *)





Lemma trade_check_fails is_buy name amount pt pu st e :
  _check_transaction round_decimal name amount pt pu is_buy st = Exc e ->
  trade round_decimal is_buy name amount pt pu st = Raised e st.
Proof.
  intros Hc. unfold trade.
  destruct is_buy; unfold buy, sell; mstep; by rewrite Hc.
Qed.



End Trade.

(** ** Settlement of expired positions *)

Section Settle.

Context (round_decimal : Decimal -> Z -> Decimal).

Implicit Types (st : DeribitOptionMarket) (p : OptionPosition).

Abbreviation balance_of st0 st :=
  (Broker.get_token_balance (token st0) (broker st)).

Lemma sum_from (l : list Decimal) a : fold_left Qplus l a == a + sum l.
Proof.
  unfold sum. revert a. induction l as [|x l IH]; intros a; cbn [fold_left].
  - lra.
  - rewrite (IH (a + x)), (IH (0 + x)). lra.
Qed.

Lemma sum_cons x (l : list Decimal) : sum (x :: l) == x + sum l.
Proof. unfold sum at 1. cbn [fold_left]. rewrite sum_from. lra. Qed.

Lemma same_market_refl st : same_market st st.
Proof. by repeat split. Qed.

Lemma same_market_broker st0 st b :
  same_market st0 st -> same_market st0 (with_broker b st).
Proof. intros (? & ? & ? & ?). by repeat split. Qed.

Lemma same_market_log st0 st l :
  same_market st0 st -> same_market st0 (with_action_log l st).
Proof. intros (? & ? & ? & ?). by repeat split. Qed.

Lemma same_market_positions st0 st l :
  same_market st0 st -> same_market st0 (with_positions l st).
Proof. intros (? & ? & ? & ?). by repeat split. Qed.

(** [_deliver_option] for a position of kind [pos_type p], when the
    underlying price is not zero. *)
Lemma deliver_option_spec st0 st p i :
  same_market st0 st -> ~ underlying_price i == 0 ->
  let amt := delivery_amount round_decimal st0 p i in
  let fee := delivery_fee round_decimal st0 p i in
  _deliver_option round_decimal p i (is_call (pos_type p)) st
  = if leb amt fee
    then Ok None st
    else Ok (Some (amt, fee))
            (with_broker
               (Broker.add_to_balance (token st0) (amt - fee) (broker st)) st).
Proof.
  intros (Ht & Hc & _ & _) Hu amt fee.
  unfold _deliver_option. mstep.
  rewrite (div_nonzero _ _ Hu). cbn iota.
  unfold get_deliver_fee, decimal. rewrite Hc, Ht.
  assert (Hd : (if is_call (pos_type p)
                then underlying_price i - pos_strike_price p
                else pos_strike_price p - underlying_price i)
               = price_diff p i).
  { unfold price_diff. by destruct (pos_type p). }
  rewrite Hd. fold (delivery_amount round_decimal st0 p i).
  fold (delivery_fee round_decimal st0 p i). fold amt. fold fee.
  by destruct (leb amt fee).
Qed.

Lemma deliver_option_zero st p i c :
  underlying_price i == 0 ->
  _deliver_option round_decimal p i c st = Raised ArithmeticError st.
Proof.
  intros Hu. unfold _deliver_option. mstep. by rewrite (div_zero _ _ Hu).
Qed.

(** The branch that [exercise_position] takes is the one of the kind of the
    position, and it is taken when the position is in the money. *)
Lemma exercise_branch p i (A : Type) (x y z : A) :
  (if is_put (pos_type p) && gtb (pos_strike_price p) (underlying_price i)
   then x
   else if is_call (pos_type p)
           && ltb (pos_strike_price p) (underlying_price i)
        then y else z)
  = if in_the_money p i
    then (if is_call (pos_type p) then y else x)
    else z.
Proof. unfold in_the_money. destruct (pos_type p); cbn; by destruct (_ : bool). Qed.

(** The first loop, at one position. *)
Lemma exercise_position_spec st0 st k p :
  same_market st0 st ->
  (expired st0 p = true ->
   exists i,
     status_data (market_status st0) !! instrument_name p = Some i
     /\ (in_the_money p i = true -> ~ underlying_price i == 0)) ->
  exists st1,
    exercise_position round_decimal k p st
    = Ok (if expired st0 p then [k] else []) st1
    /\ same_market st0 st1
    /\ positions st1 = positions st
    /\ balance_of st0 st1 == balance_of st0 st + position_credit round_decimal st0 p.
Proof.
  intros Hsame Hq. pose proof Hsame as (Ht & Hc & Hm & Hd).
  unfold exercise_position. mstep. unfold position_credit.
  rewrite Hm. fold (expired st0 p).
  destruct (expired st0 p) eqn:He.
  2: { exists st. repeat split; try done.
       destruct (_ !! _); lra. }
  destruct (Hq eq_refl) as (i & Hi & Hu). rewrite Hi.
  rewrite (exercise_branch p i).
  unfold settlement_credit.
  destruct (in_the_money p i) eqn:Hitm; cbn [andb].
  - assert (Hdel :
      (if is_call (pos_type p)
       then _deliver_option round_decimal p i true
       else _deliver_option round_decimal p i false) st
      = _deliver_option round_decimal p i (is_call (pos_type p)) st)
      by (by destruct (is_call (pos_type p))).
    rewrite Hdel, (deliver_option_spec st0 st p i Hsame (Hu eq_refl)).
    unfold gtb.
    destruct (leb (delivery_amount round_decimal st0 p i)
                  (delivery_fee round_decimal st0 p i)) eqn:Hle;
      unfold leb in Hle; rewrite Hle; cbn [negb].
    + exists st. repeat split; try done. lra.
    + unfold _record_action. mstep. eexists. split; [reflexivity |].
      split; [by apply same_market_log, same_market_broker |].
      split; [reflexivity |].
      cbn [broker with_action_log with_broker].
      rewrite balance_add_same. lra.
  - exists st. repeat split; try done. lra.
Qed.

(** Conversely, the first loop returns at an expired position only when the
    instrument is quoted, with an underlying price that is not zero when the
    position is in the money. *)
Lemma exercise_position_inv st0 st k p ks st1 :
  same_market st0 st ->
  exercise_position round_decimal k p st = Ok ks st1 ->
  expired st0 p = true ->
  exists i,
    status_data (market_status st0) !! instrument_name p = Some i
    /\ (in_the_money p i = true -> ~ underlying_price i == 0).
Proof.
  intros (Ht & Hc & Hm & Hd) Hok He.
  unfold exercise_position in Hok. mstep.
  rewrite Hm in Hok. fold (expired st0 p) in Hok. rewrite He in Hok.
  destruct (status_data (market_status st0) !! instrument_name p)
    as [i|]; [| done].
  exists i. split; [done |]. intros Hitm Hu.
  rewrite (exercise_branch p i), Hitm in Hok.
  assert (Hz : forall c, _deliver_option round_decimal p i c st
                         = Raised ArithmeticError st)
    by (intros c; by apply deliver_option_zero).
  destruct (is_call (pos_type p)); by rewrite Hz in Hok.
Qed.

Lemma expired_quoted_cons st k p l :
  expired_quoted st ((k, p) :: l) ->
  (expired st p = true ->
   exists i,
     status_data (market_status st) !! instrument_name p = Some i
     /\ (in_the_money p i = true -> ~ underlying_price i == 0))
  /\ expired_quoted st l.
Proof.
  intros H. split.
  - apply (H k p). apply list_elem_of_here.
  - intros k' p' Hin He.
    apply (H k' p'); [by apply list_elem_of_further | done].
Qed.

Lemma exercise_loop_spec st0 l : forall st,
  same_market st0 st -> expired_quoted st0 l ->
  exists st1,
    exercise_loop round_decimal l st = Ok (expired_keys st0 l) st1
    /\ same_market st0 st1
    /\ positions st1 = positions st
    /\ balance_of st0 st1 == balance_of st0 st + total_credit round_decimal st0 l.
Proof.
  induction l as [|[k p] l IH]; intros st Hsame Hq.
  - exists st. repeat split; try apply Hsame.
    unfold total_credit, sum. cbn. lra.
  - apply expired_quoted_cons in Hq as [Hq1 Hq2].
    destruct (exercise_position_spec st0 st k p Hsame Hq1)
      as (st1 & H1 & Hs1 & Hp1 & Hb1).
    destruct (IH st1 Hs1 Hq2) as (st2 & H2 & Hs2 & Hp2 & Hb2).
    exists st2. cbn [exercise_loop]. mstep. rewrite H1, H2.
    split.
    { unfold expired_keys. rewrite filter_cons. cbn [snd].
      destruct (expired st0 p); by rewrite ?decide_True, ?decide_False by done. }
    split; [exact Hs2 |]. split; [congruence |].
    unfold total_credit. cbn [map snd]. rewrite sum_cons.
    fold (total_credit round_decimal st0 l). rewrite Hb2, Hb1. lra.
Qed.

Lemma exercise_loop_inv st0 l : forall st ks st1,
  same_market st0 st ->
  exercise_loop round_decimal l st = Ok ks st1 ->
  expired_quoted st0 l.
Proof.
  induction l as [|[k p] l IH]; intros st ks st1 Hsame Hok.
  - intros k p Hin. by apply elem_of_nil in Hin.
  - cbn [exercise_loop] in Hok. mstep.
    destruct (exercise_position round_decimal k p st) as [ks1 st2|] eqn:E1;
      [| done].
    destruct (exercise_loop round_decimal l st2) as [ks2 st3|] eqn:E2;
      [| done].
    assert (Hq1 := exercise_position_inv st0 st k p ks1 st2 Hsame E1).
    assert (Hs2 : same_market st0 st2).
    { destruct (exercise_position_spec st0 st k p Hsame Hq1)
        as (st2' & H1 & Hs1 & _). rewrite E1 in H1. by injection H1 as _ <-. }
    assert (Hq2 := IH st2 ks2 st3 Hs2 E2).
    intros k' p' Hin He. apply elem_of_cons in Hin as [[= -> ->]|Hin].
    + by apply Hq1.
    + by apply (Hq2 k' p').
Qed.

(** *** The second loop *)

Lemma pos_lookup_app k (kept l : list (string * OptionPosition)) :
  k ∉ map fst kept -> pos_lookup k (kept ++ l) = pos_lookup k l.
Proof.
  induction kept as [|[k' p'] kept IH]; intros Hk; [done |].
  cbn [app pos_lookup]. cbn [map fst] in Hk.
  apply not_elem_of_cons in Hk as [Hne Hk].
  apply String.eqb_neq in Hne. rewrite Hne. by apply IH.
Qed.

Lemma pos_del_app k (kept l : list (string * OptionPosition)) :
  k ∉ map fst kept -> pos_del k (kept ++ l) = kept ++ pos_del k l.
Proof.
  induction kept as [|[k' p'] kept IH]; intros Hk; [done |].
  cbn [app pos_del]. cbn [map fst] in Hk.
  apply not_elem_of_cons in Hk as [Hne Hk].
  apply String.eqb_neq in Hne. rewrite Hne. f_equal. by apply IH.
Qed.

Lemma remove_position_spec st0 st k p kept rest :
  same_market st0 st ->
  positions st = kept ++ (k, p) :: rest ->
  k ∉ map fst kept ->
  is_Some (status_data (market_status st0) !! instrument_name p) ->
  exists st1,
    remove_position round_decimal k st = Ok tt st1
    /\ same_market st0 st1
    /\ positions st1 = kept ++ rest
    /\ broker st1 = broker st.
Proof.
  intros Hsame Hpos Hk [i Hi]. pose proof Hsame as (Ht & Hc & Hm & Hd).
  unfold remove_position. mstep.
  rewrite Hpos, (pos_lookup_app _ _ _ Hk). cbn [pos_lookup].
  rewrite String.eqb_refl, Hm, Hi.
  unfold _record_action. mstep.
  destruct (status_data (market_status st0) !! k).
  - eexists. split; [reflexivity |]. split.
    { by apply same_market_positions, same_market_log. }
    cbn [positions with_positions with_action_log broker].
    rewrite Hpos, (pos_del_app _ _ _ Hk). cbn [pos_del].
    by rewrite String.eqb_refl.
  - eexists. split; [reflexivity |]. split.
    { by apply same_market_positions, same_market_log. }
    cbn [positions with_positions with_action_log broker].
    rewrite Hpos, (pos_del_app _ _ _ Hk). cbn [pos_del].
    by rewrite String.eqb_refl.
Qed.

Lemma remove_loop_spec st0 l : forall kept st,
  same_market st0 st ->
  positions st = kept ++ l ->
  NoDup (map fst (kept ++ l)) ->
  expired_quoted st0 l ->
  exists st1,
    remove_loop round_decimal (expired_keys st0 l) st = Ok tt st1
    /\ same_market st0 st1
    /\ positions st1
       = kept ++ filter (fun e => expired st0 (snd e) = false) l
    /\ broker st1 = broker st.
Proof.
  induction l as [|[k p] l IH]; intros kept st Hsame Hpos Hnd Hq.
  - exists st. split; [reflexivity |]. split; [exact Hsame |].
    split; [exact Hpos | reflexivity].
  - apply expired_quoted_cons in Hq as [Hq1 Hq2].
    unfold expired_keys. rewrite !filter_cons. cbn [snd].
    destruct (expired st0 p) eqn:He.
    + rewrite decide_True, decide_False by done. cbn [map fst remove_loop].
      fold (expired_keys st0 l).
      assert (Hk : (k ∉ map fst kept) /\ NoDup (map fst (kept ++ l))).
      { rewrite List.map_app in Hnd. cbn [map fst] in Hnd.
        apply NoDup_app in Hnd as (Hn1 & Hdisj & Hn2).
        apply NoDup_cons in Hn2 as [_ Hn2]. split.
        - intros Hin. apply (Hdisj k Hin). apply list_elem_of_here.
        - rewrite List.map_app. apply NoDup_app. split; [done |].
          split; [| done]. intros x Hx Hx'.
          apply (Hdisj x Hx). by apply list_elem_of_further. }
      destruct Hk as [Hk Hnd'].
      destruct (Hq1 eq_refl) as (i & Hi & _).
      destruct (remove_position_spec st0 st k p kept l Hsame Hpos Hk)
        as (st1 & H1 & Hs1 & Hp1 & Hb1); [by eexists |].
      destruct (IH kept st1 Hs1 Hp1 Hnd' Hq2) as (st2 & H2 & Hs2 & Hp2 & Hb2).
      exists st2. mstep. rewrite H1. by rewrite Hb2.
    + rewrite decide_False, decide_True by done.
      fold (expired_keys st0 l).
      destruct (IH (kept ++ [(k, p)]) st Hsame) as (st2 & H2 & Hs2 & Hp2 & Hb2).
      * by rewrite <- app_assoc.
      * by rewrite <- app_assoc.
      * exact Hq2.
      * exists st2. rewrite <- app_assoc in Hp2.
        split; [exact H2 |]. split; [exact Hs2 |]. split; [exact Hp2 | exact Hb2].
Qed.


End Settle.

(** ** A concrete market *)


Lemma trade_fee_debit_credit_witness :
  exists fills st' fills2 st'',
    buy quantize "ETH-100-C" 2 None None (market_at 0 []) = Ok fills st'
    /\ Broker.get_token_balance "eth" (broker st')
       = 10 - (total_premium_of fills
               + trade_fee quantize (market_at 0 []) 2 (total_premium_of fills))
    /\ sell quantize "ETH-100-C" 1 None None st' = Ok fills2 st''
    /\ Broker.get_token_balance "eth" (broker st'')
       = Broker.get_token_balance "eth" (broker st')
         + (total_premium_of fills2
            - trade_fee quantize st' 1 (total_premium_of fills2)).
Proof.
  destruct (buy quantize "ETH-100-C" 2 None None (market_at 0 []))
    as [fills st'|e st'] eqn:Hbuy; [| vm_compute in Hbuy; discriminate].
  destruct (sell quantize "ETH-100-C" 1 None None st')
    as [fills2 st''|e st''] eqn:Hsell.
  2: { exfalso. vm_compute in Hbuy. injection Hbuy as <- <-.
       vm_compute in Hsell. discriminate. }
  exists fills, st', fills2, st''.
  destruct (trade_fee_debit_credit quantize "ETH-100-C" 2 None None
              (market_at 0 []) fills st') as [Hb _].
  destruct (Hb Hbuy) as (a & ins & p & Hc & Hbal).
  assert (Ha : a = 2) by (vm_compute in Hc; by injection Hc as <- _ _).
  subst a.
  destruct (trade_fee_debit_credit quantize "ETH-100-C" 1 None None
              st' fills2 st'') as [_ Hs].
  destruct (Hs Hsell) as (a & ins' & p' & Hc' & Hbal').
  assert (Ha : a = 1).
  { vm_compute in Hbuy. injection Hbuy as <- <-.
    vm_compute in Hc'. by injection Hc' as <- _ _. }
  subst a.
  assert (Ht : token st' = "eth").
  { vm_compute in Hbuy. by injection Hbuy as <- <-. }
  assert (Ht' : token st'' = "eth").
  { vm_compute in Hbuy. injection Hbuy as <- <-.
    vm_compute in Hsell. by injection Hsell as <- <-. }
  rewrite Ht in Hbal. rewrite Ht' in Hbal'. rewrite Ht in Hbal'.
  split; [first [exact Hbuy | reflexivity] |]. split; [exact Hbal |].
  split; [first [exact Hsell | reflexivity] | exact Hbal'].
Defined.



End DeribitSpec.

(** * Properties of the actuator *)

Module ActuatorSpec.

Import Actuator.

(** ** Computations that keep a part of the state *)

Section Frame.

Context {S X : Type} (f : S -> X).

Lemma preserves_ret {B} (b : B) : preserves f (ret b).
Proof. by intros s. Qed.

Lemma preserves_raise {B} e : preserves f (raise e : M S B).
Proof. by intros s. Qed.

Lemma preserves_get : preserves f get.
Proof. by intros s. Qed.

Lemma preserves_lift {B} (r : res B) : preserves f (lift r).
Proof. intros s. unfold lift. by destruct r. Qed.

Lemma preserves_modify (g : S -> S) :
  (forall s, f (g s) = f s) -> preserves f (modify g).
Proof. intros Hg s. apply Hg. Qed.

Lemma preserves_bind {B C} (c : M S B) (k : B -> M S C) :
  preserves f c -> (forall b, preserves f (k b)) -> preserves f (bind c k).
Proof.
  intros Hc Hk s. unfold bind. specialize (Hc s).
  destruct (c s) as [b s1|e s1]; cbn in *; [| done].
  by rewrite (Hk b s1).
Qed.

Lemma preserves_when (b : bool) (c : M S unit) :
  preserves f c -> preserves f (when b c).
Proof. intros Hc. destruct b; [done | apply preserves_ret]. Qed.


Lemma preserves_Raised {B} (c : M S B) s e s1 :
  preserves f c -> c s = Raised e s1 -> f s1 = f s.
Proof. intros Hc Hs. specialize (Hc s). by rewrite Hs in Hc. Qed.

End Frame.

Lemma bind_Ok {S B C} (c : M S B) (k : B -> M S C) s r s' :
  bind c k s = Ok r s' -> exists b s1, c s = Ok b s1 /\ k b s1 = Ok r s'.
Proof.
  unfold bind. destruct (c s) as [b s1|e s1]; [| done]. by exists b, s1.
Qed.

(** Splits the goal [preserves f c] along the structure of [c]. *)
Ltac frame :=
  repeat first
    [ assumption
    | apply preserves_ret
    | apply preserves_raise
    | apply preserves_get
    | apply preserves_lift
    | apply preserves_when
    | apply preserves_bind; [| intros ?]
    | (apply preserves_modify; intros ?; reflexivity)
    | match goal with
      | |- preserves _ (match ?x with _ => _ end) => destruct x
      end ].

Section Run.

Context {W View A : Type} (setup : Setup W View A).

Implicit Types (s : Actuator W A).

Lemma reads_preserves {X B} (f : Actuator W A -> X)
  (g : Actuator W A -> res B) : preserves f (reads g).
Proof. intros s. unfold reads, lift. by destruct (g s). Qed.

(** The validation changes the price table at most. *)
Section Validation.

Context {X : Type} (f : Actuator W A -> X).
Hypothesis f_prices : forall p s, f (with_token_prices p s) = f s.

Lemma set_price_preserves p : preserves f (set_price p).
Proof.
  intros s. unfold set_price, modify. cbn [final_state].
  destruct (_token_prices s); apply f_prices.
Qed.

Lemma fill_prices_preserves (ms : list (MarketInfo * Market W View A)) :
  preserves f (fill_prices ms).
Proof.
  induction ms as [|m ms IH]; cbn [fill_prices]; frame.
  apply set_price_preserves.
Qed.

Lemma check_backtest_preserves : preserves f (_check_backtest setup).
Proof.
  pose proof (fill_prices_preserves (markets setup)).
  unfold _check_backtest. frame.
Qed.

End Validation.

(** The calls into the markets and the strategy change the action lists and
    the state of the world at most. *)
Section Calls.

Context {X : Type} (f : Actuator W A -> X).
Hypothesis f_actions : forall l s, f (with_action_list l s) = f s.
Hypothesis f_currents : forall c s, f (with_currents c s) = f s.
Hypothesis f_world : forall w s, f (with_world w s) = f s.

Lemma record_action_preserves a : preserves f (_record_action_list a).
Proof.
  intros s. unfold _record_action_list, modify. cbn [final_state].
  by rewrite f_currents, f_actions.
Qed.

Lemma record_all_preserves (l : list A) : preserves f (record_all l).
Proof.
  induction l as [|a l IH]; cbn [record_all]; frame.
  apply record_action_preserves.
Qed.

Lemma perform_preserves {B} (c : Eff W A B) : preserves f (perform c).
Proof.
  intros s. unfold perform.
  pose proof (record_all_preserves (fst (c (world s))) s) as Hr.
  destruct (record_all _ s) as [u s1|e s1]; cbn [final_state] in *; [| done].
  destruct (snd (c (world s))); cbn [final_state]; by rewrite f_world.
Qed.

Lemma price_at_preserves t : preserves f (price_at t).
Proof. apply reads_preserves. Qed.

Lemma set_rows_preserves (ms : list (MarketInfo * Market W View A)) t update :
  preserves f (set_rows ms t update).
Proof.
  induction ms as [|m ms IH]; cbn [set_rows]; frame;
    first [ apply price_at_preserves
          | apply preserves_modify; intros ?; apply f_world ].
Qed.

Lemma run_triggers_preserves (ts : list (Trigger W View A)) row_data :
  preserves f (run_triggers ts row_data).
Proof.
  induction ts as [|t ts IH]; cbn [run_triggers]; frame.
  apply perform_preserves.
Qed.

Lemma update_all_preserves (ms : list (MarketInfo * Market W View A)) :
  preserves f (update_all ms).
Proof.
  induction ms as [|m ms IH]; cbn [update_all]; frame.
  apply perform_preserves.
Qed.

Lemma notify_preserves (l : list (BaseAction A)) :
  preserves f (notify setup l).
Proof.
  induction l as [|a l IH]; cbn [notify]; frame.
  apply perform_preserves.
Qed.

Lemma get_account_status_preserves prices t :
  preserves f (get_account_status setup prices t).
Proof. unfold get_account_status. frame. Qed.


End Calls.


Abbreviation statuses := (_account_status_list (W:=W) (A:=A)).






(** C5.  When the validation raises, [run] raises the same exception at the
    same state: the action list and the list of account statuses are the
    empty lists that [reset] made, and the state of the broker, the markets
    and the strategy is the one before the run. *)
Theorem failed_validation_leaves_nothing evaluator output s e s1 :
  _check_backtest setup
    (with_enabled_evaluator (default [] evaluator) (final_state (reset s)))
  = Raised e s1 ->
  run setup evaluator output s = Raised e s1
  /\ _action_list s1 = []
  /\ _account_status_list s1 = []
  /\ world s1 = world s.
Proof.
  intros Hc.
  assert (F1 := check_backtest_preserves _action_list (fun _ _ => eq_refl)).
  assert (F2 := check_backtest_preserves
                  _account_status_list (fun _ _ => eq_refl)).
  assert (F3 := check_backtest_preserves world (fun _ _ => eq_refl)).
  split.
  - unfold run, run_main, bind. unfold reset at 1, modify at 1 2.
    unfold reset, modify in Hc. cbn [final_state] in Hc. by rewrite Hc.
  - rewrite (preserves_Raised _ _ _ _ _ F1 Hc),
      (preserves_Raised _ _ _ _ _ F2 Hc), (preserves_Raised _ _ _ _ _ F3 Hc).
    by repeat split.
Qed.

(** *** What a successful validation has checked *)

Lemma lift_Ok {S B} (r : res B) (x x' : S) b :
  lift r x = Ok b x' -> r = Val b /\ x' = x.
Proof. unfold lift. destruct r; [| done]. by intros [= <- <-]. Qed.

Lemma nth_item_head {B} (l : list B) x :
  nth_item l 0 = Val x -> head l = Some x.
Proof. unfold nth_item. destruct l; [done |]. by intros [= <-]. Qed.

Lemma nth_item_last {B} (l : list B) x :
  nth_item (rev l) 0 = Val x -> last l = Some x.
Proof.
  unfold nth_item. destruct l as [|a l] using rev_ind; [done |].
  rewrite rev_app_distr. cbn. intros [= <-]. by rewrite last_snoc.
Qed.

Lemma interval_nth idx t0 t1 :
  nth_item idx 1 = Val t1 -> nth_item idx 0 = Val t0 ->
  interval idx = Some (t1 - t0)%Z.
Proof.
  unfold nth_item. destruct idx as [|a [|b idx]]; cbn; try done.
  by intros [= <-] [= <-].
Qed.

Lemma count_all (l : list Z) x :
  count l x = length l -> forall y, y ∈ l -> y = x.
Proof.
  unfold count. induction l as [|a l IH]; intros Hc y Hy.
  - by apply elem_of_nil in Hy.
  - rewrite filter_cons in Hc. destruct (decide (a = x)) as [->|Hne].
    + cbn in Hc. apply elem_of_cons in Hy as [->|Hy]; [done |].
      apply IH; [lia | done].
    + pose proof (length_filter (fun y => y = x) l). cbn in Hc. lia.
Qed.

Lemma check_tokens_Val tokens p :
  check_tokens tokens p = Val tt -> forall t, t ∈ tokens -> t ∈ columns p.
Proof.
  induction tokens as [|t tokens IH]; cbn [check_tokens]; intros H t' Ht'.
  - by apply elem_of_nil in Ht'.
  - destruct (bool_decide (t ∈ columns p)) eqn:E; [| done].
    apply bool_decide_eq_true in E.
    apply elem_of_cons in Ht' as [->|Ht']; [done | by apply IH].
Qed.

Lemma check_markets_Val (ms : list (MarketInfo * Market W View A)) w l :
  check_markets ms w = Val l ->
  l = map (fun m => Z.of_nat (length (data_index (snd m)))) ms.
Proof.
  revert l. induction ms as [|m ms IH]; intros l; cbn [check_markets].
  - by intros [= <-].
  - destruct (check_market (snd m) w); cbn [rbind]; [| done].
    destruct (check_markets ms w) as [l'|]; cbn [rbind]; [| done].
    intros [= <-]. cbn [map]. by rewrite (IH l' eq_refl).
Qed.

Lemma intervals_Val (ms : list (MarketInfo * Market W View A)) l :
  intervals ms = Val l ->
  Forall2 (fun m d => interval (data_index (snd m)) = Some d) ms l.
Proof.
  revert l. induction ms as [|m ms IH]; intros l; cbn [intervals].
  - intros [= <-]. constructor.
  - destruct (nth_item (data_index (snd m)) 1) as [t1|] eqn:E1;
      cbn [rbind]; [| done].
    destruct (nth_item (data_index (snd m)) 0) as [t0|] eqn:E0;
      cbn [rbind]; [| done].
    destruct (intervals ms) as [l'|]; cbn [rbind]; [| done].
    intros [= <-]. constructor; [by apply interval_nth | by apply IH].
Qed.

Lemma resolved_prices_after s s1 u :
  match _token_prices s with
  | None => fill_prices (markets setup)
  | Some _ => ret tt
  end s = Ok u s1 ->
  resolved_prices setup s = _token_prices s1.
Proof.
  unfold resolved_prices. destruct (_token_prices s) eqn:E.
  - intros [= _ <-]. by rewrite E.
  - intros H. by rewrite H.
Qed.

(** C6, as amended.  When the validation returns, a market is registered and
    the price table that it used has a column for every token of the ledger,
    spans the range of the index of the default market, and, when the
    markets have more than one row, has the interval of every market; the
    markets have the same number of rows and, with more than one row, the
    same interval, the interval being the difference of the first two
    timestamps.  Hence the validation raises when no price table satisfies
    all of this. *)
Theorem validation_checks s :
  (forall s',
     _check_backtest setup s = Ok tt s' ->
     exists p, resolved_prices setup s = Some p
               /\ _token_prices s' = Some p /\ valid setup p)
  /\ ((forall p, resolved_prices setup s = Some p -> ~ valid setup p) ->
      exists e s', _check_backtest setup s = Raised e s').
Proof.
  assert (Hok : forall s',
    _check_backtest setup s = Ok tt s' ->
    exists p, resolved_prices setup s = Some p
              /\ _token_prices s' = Some p /\ valid setup p).
  { intros s' H. unfold _check_backtest in H.
    destruct (length (markets setup) <? 1)%nat eqn:Hlen; [done |].
    apply Nat.ltb_ge in Hlen.
    apply bind_Ok in H as (? & ? & [= <- <-] & H).
    apply bind_Ok in H as (? & s1 & Hfill & H).
    apply resolved_prices_after in Hfill.
    apply bind_Ok in H as (? & ? & [= <- <-] & H).
    destruct (_token_prices s1) as [p|] eqn:Hp; [| done].
    apply bind_Ok in H as ([] & ? & [Htok ->]%lift_Ok & H).
    apply bind_Ok in H as (data_length & ? & [Hms ->]%lift_Ok & H).
    apply check_markets_Val in Hms.
    apply bind_Ok in H as (first_length & ? & [Hfl ->]%lift_Ok & H).
    destruct (count data_length first_length =? length data_length)%nat
      eqn:Hcount; cbn [negb] in H; [| done].
    apply Nat.eqb_eq in Hcount.
    pose proof (count_all _ _ Hcount) as Hall.
    apply bind_Ok in H as (d & ? & [Hdef ->]%lift_Ok & H).
    apply bind_Ok in H as (p_first & ? & [Hpf ->]%lift_Ok & H).
    apply bind_Ok in H as (d_first & ? & [Hdf ->]%lift_Ok & H).
    apply bind_Ok in H as (covers & s2 & Hcov & H).
    assert (Hspan : covers = true -> spans p (data_index d) /\ s2 = s1).
    { intros ->. destruct (d_first <? p_first)%Z eqn:Hlt; [done |].
      apply Z.ltb_ge in Hlt.
      apply bind_Ok in Hcov as (p_last & ? & [Hpl ->]%lift_Ok & Hcov).
      apply bind_Ok in Hcov as (d_last & ? & [Hdl ->]%lift_Ok & Hcov).
      injection Hcov as Hcov <-. split; [| done].
      apply negb_true_iff, Z.ltb_ge in Hcov.
      exists p_first, p_last, d_first, d_last.
      repeat split; try done;
        [by apply nth_item_head | by apply nth_item_last
        | by apply nth_item_head | by apply nth_item_last]. }
    destruct covers; cbn [negb] in H; [| done].
    destruct (Hspan eq_refl) as [Hspans ->]. clear Hspan Hcov.
    assert (Hlenof : forall m, m ∈ markets setup ->
                       Z.of_nat (length (data_index (snd m))) = first_length).
    { intros m Hm. apply Hall. rewrite Hms.
      exact (list_elem_of_fmap_2
               (fun m => Z.of_nat (length (data_index (snd m)))) _ m Hm). }
    assert (Hint : forall m1 m2,
              m1 ∈ markets setup -> m2 ∈ markets setup ->
              (1 < length (data_index (snd m1)))%nat ->
              interval (data_index (snd m1)) = interval (data_index (snd m2))
              /\ interval (index p) = interval (data_index (snd m1))
              /\ s' = s1).
    { intros m1 m2 Hm1 Hm2 Hgt.
      assert (Hl : (1 <? first_length)%Z = true).
      { apply Z.ltb_lt. rewrite <- (Hlenof m1 Hm1). lia. }
      rewrite Hl in H.
      apply bind_Ok in H as (data_interval & ? & [Hiv ->]%lift_Ok & H).
      apply intervals_Val in Hiv.
      apply bind_Ok in H as (first_interval & ? & [Hfi ->]%lift_Ok & H).
      destruct (count data_interval first_interval =? length data_interval)%nat
        eqn:Hc2; cbn [negb] in H; [| done].
      apply Nat.eqb_eq in Hc2. pose proof (count_all _ _ Hc2) as Hall2.
      apply bind_Ok in H as (p1 & ? & [Hp1 ->]%lift_Ok & H).
      apply bind_Ok in H as (p0 & ? & [Hp0 ->]%lift_Ok & H).
      destruct ((p1 - p0) =? first_interval)%Z eqn:Hpi; cbn [negb] in H;
        [| done].
      apply Z.eqb_eq in Hpi. injection H as <-.
      assert (Hof : forall m, m ∈ markets setup ->
                      interval (data_index (snd m)) = Some first_interval).
      { intros m Hm. apply list_elem_of_lookup in Hm as [i Hi].
        destruct (Forall2_lookup_l _ _ _ _ _ Hiv Hi) as (dv & Hdv & Hm').
        rewrite Hm'. f_equal. apply Hall2.
        apply list_elem_of_lookup. by exists i. }
      rewrite (Hof m1 Hm1), (Hof m2 Hm2).
      split; [done |]. split; [| done].
      rewrite (interval_nth _ _ _ Hp1 Hp0). by rewrite Hpi. }
    assert (Hs' : _token_prices s' = Some p).
    { destruct (1 <? first_length)%Z eqn:Hl.
      - assert (exists m, m ∈ markets setup) as [m Hm].
        { destruct (markets setup) as [|m ms]; [cbn in Hlen; lia |].
          exists m. apply list_elem_of_here. }
        destruct (Hint m m Hm Hm) as (_ & _ & ->); [| done].
        apply Z.ltb_lt in Hl. rewrite <- (Hlenof m Hm) in Hl. lia.
      - by injection H as <-. }
    exists p. split; [by rewrite Hfill |]. split; [exact Hs' |].
    constructor.
    - intros Hnil. rewrite Hnil in Hlen. cbn in Hlen. lia.
    - by apply check_tokens_Val.
    - intros m1 m2 Hm1 Hm2.
      pose proof (Hlenof m1 Hm1). pose proof (Hlenof m2 Hm2). lia.
    - by exists d.
    - intros m1 m2 Hm1 Hm2 Hgt.
      destruct (Hint m1 m2 Hm1 Hm2 Hgt) as (? & ? & _). by split. }
  split; [exact Hok |].
  intros Hbad. destruct (_check_backtest setup s) as [[] s'|e s'] eqn:E.
  - destruct (Hok s' eq_refl) as (p & Hr & _ & Hv). by destruct (Hbad p Hr).
  - by exists e, s'.
Qed.

End Run.

(** ** Concrete runs *)


Lemma failed_validation_leaves_nothing_witness :
  exists s1,
    run one_market None true (fresh (Some (plain_prices [10; 20]%Z)))
    = Raised (DemeterError "Time range of price doesn't cover market data") s1
    /\ _action_list s1 = []
    /\ _account_status_list s1 = []
    /\ world s1 = 0%nat.
Proof.
  eexists.
  apply (failed_validation_leaves_nothing one_market None true
           (fresh (Some (plain_prices [10; 20]%Z)))).
  vm_compute. reflexivity.
Defined.

Lemma validation_checks_witness :
  exists p,
    _token_prices (fresh (Some (plain_prices [10; 20; 30]%Z))) = Some p
    /\ valid one_market p.
Proof.
  destruct (validation_checks one_market
              (fresh (Some (plain_prices [10; 20; 30]%Z)))) as [Hok _].
  destruct (Hok (fresh (Some (plain_prices [10; 20; 30]%Z))))
    as (p & _ & Hp & Hv); [vm_compute; reflexivity |].
  by exists p.
Defined.

(** C6, as stated, fails: the validation returns for two markets whose
    ranges differ and a price table that spans the range of the default
    market only. *)
Lemma validation_ignores_other_markets :
  _check_backtest two_markets (fresh (Some (plain_prices [0; 1]%Z)))
  = Ok tt (fresh (Some (plain_prices [0; 1]%Z)))
  /\ ~ spans_every_market two_markets (plain_prices [0; 1]%Z).
Proof.
  split; [vm_compute; reflexivity |].
  intros H.
  destruct (H ("b"%string, plain_market [10; 11]%Z))
    as (pf & pl & df & dl & _ & Hpl & _ & Hdl & _ & Hle).
  { apply list_elem_of_further, list_elem_of_here. }
  cbn in Hpl, Hdl. injection Hpl as <-. injection Hdl as <-. lia.
Qed.

End ActuatorSpec.

(** * Properties of the lending pool library *)

Module AaveSpec.

Import Aave.








Lemma ltv_loop_missing rp t : forall supplies acc,
  t ∈ map fst supplies -> rp !! t = None ->
  ltv_loop supplies rp acc = Exc KeyError.
Proof.
  induction supplies as [|[t' s] supplies IH]; intros acc Hin Hnone.
  - by apply elem_of_nil in Hin.
  - cbn [ltv_loop]. unfold risk_loc.
    destruct (rp !! t') as [r|] eqn:Hr; [| done]. cbn [rbind].
    apply IH; [| done]. cbn [map fst] in Hin.
    apply elem_of_cons in Hin as [->|Hin]; [congruence | done].
Qed.

Lemma threshold_loop_missing rp t : forall supplies acc rate,
  t ∈ map fst supplies -> rp !! t = None ->
  threshold_loop supplies rp acc rate = Exc KeyError.
Proof.
  induction supplies as [|[t' s] supplies IH]; intros acc rate Hin Hnone.
  - by apply elem_of_nil in Hin.
  - cbn [threshold_loop]. unfold risk_loc.
    destruct (rp !! t') as [r|] eqn:Hr; [| done]. cbn [rbind].
    apply IH; [| done]. cbn [map fst] in Hin.
    apply elem_of_cons in Hin as [->|Hin]; [congruence | done].
Qed.

Lemma threshold_values_missing rp t : forall supplies,
  t ∈ map fst supplies -> rp !! t = None ->
  threshold_values supplies rp = Exc KeyError.
Proof.
  induction supplies as [|[t' s] supplies IH]; intros Hin Hnone.
  - by apply elem_of_nil in Hin.
  - cbn [threshold_values]. unfold risk_loc.
    destruct (rp !! t') as [r|] eqn:Hr; [| done]. cbn [rbind].
    rewrite IH; [done | | done]. cbn [map fst] in Hin.
    apply elem_of_cons in Hin as [->|Hin]; [congruence | done].
Qed.

(** X3.  A supplied token without risk parameters makes the three ratios
    raise [KeyError], whatever its amount and whatever the other supplies
    and the borrows. *)
Theorem missing_risk_parameter supplies borrows rp t :
  t ∈ map fst supplies -> rp !! t = None ->
  health_factor supplies borrows rp = Exc KeyError
  /\ current_ltv supplies rp = Exc KeyError
  /\ total_liquidation_threshold supplies rp = Exc KeyError.
Proof.
  intros Hin Hnone.
  unfold health_factor, current_ltv, total_liquidation_threshold.
  by rewrite (threshold_values_missing rp t), (ltv_loop_missing rp t),
    (threshold_loop_missing rp t).
Qed.




Lemma missing_risk_parameter_witness :
  health_factor [("dai"%string, 0)] [] two_tokens = Exc KeyError
  /\ current_ltv [("dai"%string, 0)] two_tokens = Exc KeyError
  /\ total_liquidation_threshold [("dai"%string, 0)] two_tokens = Exc KeyError.
Proof.
  apply (missing_risk_parameter _ _ _ "dai"%string);
    [apply list_elem_of_here | reflexivity].
Defined.

End AaveSpec.

(** * More on the vault market *)

Module SqueethMore.

Import Squeeth SqueethSpec.

(** Case analysis on the comparisons of the goal. *)
Ltac compare :=
  repeat match goal with
    | |- context [gtb ?a ?b] =>
        let E := fresh "E" in
        destruct (gtb a b) eqn:E; [apply gtb_gt in E | apply gtb_le in E]
    | |- context [ltb ?a ?b] =>
        let E := fresh "E" in
        destruct (ltb a b) eqn:E; [apply ltb_lt in E | apply ltb_ge in E]
    | |- context [geb ?a ?b] =>
        let E := fresh "E" in
        destruct (geb a b) eqn:E; [apply geb_ge in E | apply geb_lt in E]
    end.

Section Liquidation.

Context {Pool : Type} `{UniLpMarket Pool}.

Implicit Types (st : SqueethMarket Pool) (k : VaultKey) (v : Vault).

(** X4.  [_get_liquidation_result] never asks for more collateral than the
    vault holds, and never liquidates more than the short amount of the
    vault, when that amount is not negative. *)
Theorem liquidation_result_capped max_osqth short collateral st :
  let r := _get_liquidation_result max_osqth short collateral st in
  snd r <= collateral /\ (0 <= short -> fst r <= short).
Proof.
  assert (Hsingle : forall liq,
            fst (_get_single_liquidation_amount max_osqth liq st) <= liq).
  { intros liq. unfold _get_single_liquidation_amount. cbn [fst].
    compare; lra. }
  unfold _get_liquidation_result.
  pose proof (Hsingle (short / 2)) as H1. pose proof (Hsingle short) as H2.
  revert H1 H2.
  generalize (_get_single_liquidation_amount max_osqth (short / 2) st).
  generalize (_get_single_liquidation_amount max_osqth short st).
  intros p2 p1 H1 H2.
  assert (Hhalf : short / 2 == short * (1 # 2)) by field.
  rewrite Hhalf in H1.
  destruct (gtb collateral (snd p1)); [destruct (ltb _ _) |];
    compare; cbn [fst snd]; (split; [| intros Hs]); lra.
Qed.

Ltac mstep :=
  unfold bind, reads, lift, get, modify, ret, raise, when in *;
  cbn beta iota in *.

Lemma update_vault_Some st k v f :
  vault st !! k = Some v ->
  update_vault k f st = Ok tt (with_vault (<[k := f v]> (vault st)) st).
Proof. unfold update_vault. by intros ->. Qed.

Lemma check_vault_state st k nf : final_state (_check_vault k nf st) = st.
Proof.
  unfold _check_vault. mstep.
  destruct (_get_vault_status k nf st) as [[a d]|e]; [| done].
  by destruct a, d.
Qed.


(** X6.  [_reduce_debt] on a vault with an attached position: the position
    is redeemed from the pool and detached, the redeemed oSQTH burns debt up
    to the short amount of the vault, the rest of it goes to the ledger, the
    redeemed ETH goes to the collateral, and the bounty, 2% of the redeemed
    value, is taken from the collateral and returned. *)
Theorem reduce_debt_redeems k st v p weth osqth pool' b' :
  vault st !! k = Some v -> uni_nft_id v = Some p ->
  remove_liquidity p (squeeth_uni_pool st) (broker st)
  = Val (weth, osqth, pool', b') ->
  let bounty := (osqth * get_twap_price oSQTH st + weth) * REDUCE_DEBT_BOUNTY in
  let burn := if gtb osqth (osqth_short_amount v)
              then osqth_short_amount v else osqth in
  exists st',
    _reduce_debt k true st = Ok bounty st'
    /\ vault st' !! k
       = Some {| id := id v;
                 collateral_amount := collateral_amount v + weth - bounty;
                 osqth_short_amount := osqth_short_amount v - burn;
                 uni_nft_id := None |}
    /\ (0 <= osqth_short_amount v -> 0 <= osqth_short_amount v - burn)
    /\ squeeth_uni_pool st' = pool'
    /\ broker st'
       = (if gtb osqth (osqth_short_amount v)
          then Broker.add_to_balance "osqth" (osqth - osqth_short_amount v) b'
          else b').
Proof.
  intros Hv Hn Hrem bounty burn. unfold _reduce_debt. mstep.
  rewrite (vault_at_Some _ _ _ Hv), Hn. cbn iota.
  unfold _redeem_uni_token. rewrite Hrem.
  unfold _get_reduce_debt_result_in_vault. mstep.
  set (st0 := with_broker b' (with_pool pool' st)).
  assert (Hv0 : vault st0 !! k = Some v) by done.
  rewrite (vault_at_Some _ _ _ Hv0).
  unfold _get_reduce_debt_bounty.
  change (get_twap_price oSQTH st0) with (get_twap_price oSQTH st).
  fold bounty.
  assert (Hstep : forall s w f, vault s !! k = Some w ->
            update_vault k f s = Ok tt (with_vault (<[k := f w]> (vault s)) s))
    by (intros; by apply update_vault_Some).
  destruct (gtb osqth (osqth_short_amount v)) eqn:Hgt; cbn iota;
    repeat (erewrite Hstep;
            [| first [exact Hv0 | cbn; apply lookup_insert_eq]]);
    unfold add_to_balance; mstep.
  - assert (Hpos : gtb (osqth - osqth_short_amount v) 0 = true)
      by (apply gtb_gt; apply gtb_gt in Hgt; lra).
    rewrite Hpos. eexists. split; [reflexivity |].
    split; [cbn; by rewrite lookup_insert_eq |].
    split; [subst burn; intros Hs; lra |]. by split.
  - assert (Hzero : gtb 0 0 = false) by reflexivity.
    rewrite Hzero. eexists. split; [reflexivity |].
    split; [cbn; by rewrite lookup_insert_eq |].
    split; [subst burn; intros Hs; apply gtb_le in Hgt; lra |]. by split.
Qed.

(** X7.  [open_deposit_mint] on an existing vault, without a position: before
    the vault is checked, and so whether the call returns or raises, the
    short amount has grown by the minted amount, the minted oSQTH is in the
    ledger, and the collateral has grown by what [_get_fee] returns, which
    with a positive minted amount is the minted amount itself and not the
    deposit. *)
Theorem open_deposit_mint_effect k st v deposit mint rnd :
  vault st !! k = Some v -> 0 < deposit ->
  let st' := final_state (open_deposit_mint deposit mint (Some k) None rnd st) in
  (0 < mint ->
   vault st' !! k
   = Some (set_collateral (collateral_amount v + mint)
             (set_short (osqth_short_amount v + mint) v))
   /\ broker st' = Broker.add_to_balance "osqth" mint (broker st))
  /\ (mint <= 0 ->
      vault st' !! k = Some (set_collateral (collateral_amount v + deposit) v)
      /\ broker st' = broker st).
Proof.
  intros Hv Hdep st'. subst st'.
  assert (Hd : gtb deposit 0 = true) by by apply gtb_gt.
  split; intros Hm.
  - assert (Hg : gtb mint 0 = true) by by apply gtb_gt.
    unfold open_deposit_mint. mstep. rewrite Hg, Hd. cbn iota.
    rewrite (vault_at_Some _ _ _ Hv). cbn iota.
    rewrite (update_vault_Some _ _ _ _ Hv).
    unfold add_to_balance. mstep. unfold _get_fee.
    erewrite update_vault_Some; [| cbn; apply lookup_insert_eq].
    set (st1 := with_vault _ _).
    pose proof (check_vault_state st1 k (get_norm_factor st)) as Hc.
    destruct (_check_vault k (get_norm_factor st) st1) as [[] s|e s];
      cbn [final_state] in *; subst s.
    + assert (gtb 0 0 = false) as -> by reflexivity. cbn [final_state].
      subst st1. cbn. by rewrite lookup_insert_eq.
    + subst st1. cbn. by rewrite lookup_insert_eq.
  - assert (Hg : gtb mint 0 = false) by by apply gtb_le.
    unfold open_deposit_mint. mstep. rewrite Hg, Hd. cbn iota.
    rewrite (update_vault_Some _ _ _ _ Hv).
    set (st1 := with_vault _ _).
    pose proof (check_vault_state st1 k (get_norm_factor st)) as Hc.
    destruct (_check_vault k (get_norm_factor st) st1) as [[] s|e s];
      cbn [final_state] in *; subst s.
    + assert (gtb 0 0 = false) as -> by reflexivity. cbn [final_state].
      subst st1. cbn. by rewrite lookup_insert_eq.
    + subst st1. cbn. by rewrite lookup_insert_eq.
Qed.

(** X8.  [burn_and_withdraw] on an existing vault: before the vault is
    checked, and so whether the call returns or raises, the short amount is
    lowered by the burnt amount, or set to zero when the burnt amount exceeds
    it, the collateral is lowered by the withdrawn amount, or emptied when
    the withdrawn amount exceeds it, and what left the collateral is in the
    ledger as WETH.  On a key without a vault the call raises and changes
    nothing. *)
Theorem burn_and_withdraw_effect k st burn withdraw :
  0 < burn -> 0 < withdraw ->
  (forall v, vault st !! k = Some v ->
     let st' := final_state (burn_and_withdraw k burn withdraw st) in
     let short' := if geb (osqth_short_amount v) burn
                   then osqth_short_amount v - burn else 0 in
     let taken := if gtb withdraw (collateral_amount v)
                  then collateral_amount v else withdraw in
     vault st' !! k
     = Some (set_collateral (collateral_amount v - taken) (set_short short' v))
     /\ broker st' = Broker.add_to_balance "weth" taken (broker st))
  /\ (vault st !! k = None ->
      burn_and_withdraw k burn withdraw st = Raised not_exist st).
Proof.
  intros Hb Hw. split.
  - intros v Hv st' short' taken. subst st'.
    apply gtb_gt in Hb, Hw.
    unfold burn_and_withdraw. mstep. rewrite Hv, Hb, Hw. cbn iota.
    assert (Hburn :
      (if geb (osqth_short_amount v) burn
       then update_vault k
              (fun v0 => set_short (osqth_short_amount v0 - burn) v0)
       else update_vault k (set_short 0)) st
      = Ok tt (with_vault (<[k := set_short short' v]> (vault st)) st)).
    { subst short'. destruct (geb _ _); by rewrite (update_vault_Some _ _ _ _ Hv). }
    rewrite Hburn. set (st1 := with_vault _ st).
    assert (Hv1 : vault st1 !! k = Some (set_short short' v))
      by (subst st1; cbn; by rewrite lookup_insert_eq).
    unfold _withdraw_collateral. mstep. rewrite Hv1.
    rewrite (update_vault_Some _ _ _ _ Hv1).
    unfold add_to_balance. mstep.
    cbn [collateral_amount set_short]. fold taken.
    set (st2 := with_broker _ _).
    pose proof (check_vault_state st2 k (get_norm_factor st2)) as Hc.
    destruct (_check_vault k (get_norm_factor st2) st2) as [[] s|e s];
      cbn [final_state] in *; subst s.
    + pose proof (check_vault_state st2 k (get_norm_factor st2)) as Hc.
      destruct (_check_vault k (get_norm_factor st2) st2) as [[] s|e s];
        cbn [final_state] in *; subst s; subst st2 st1; cbn;
        by rewrite lookup_insert_eq.
    + subst st2 st1. cbn. by rewrite lookup_insert_eq.
  - intros Hnone. unfold burn_and_withdraw. mstep. by rewrite Hnone.
Qed.

End Liquidation.

(** ** Concrete vaults *)

Lemma liquidation_result_capped_witness :
  let r := _get_liquidation_result 10 10 1 (one_vault vault_150 1 1 1) in
  snd r <= 1 /\ fst r <= 10.
Proof.
  destruct (liquidation_result_capped 10 10 1 (one_vault vault_150 1 1 1))
    as [Hc Hs].
  split; [exact Hc | apply Hs; lra].
Defined.


Lemma reduce_debt_redeems_witness :
  exists st',
    _reduce_debt 7 true market_with_position
    = Ok ((4 * (1 # 10) + 2) * REDUCE_DEBT_BOUNTY) st'
    /\ (uni_nft_id <$> vault st' !! 7%Z) = Some None
    /\ squeeth_uni_pool st' = [].
Proof.
  edestruct (reduce_debt_redeems 7 market_with_position vault_with_position
               (0, 100)%Z)
    as (st' & Hr & Hv & _ & Hp & _);
    [reflexivity | reflexivity | vm_compute; reflexivity |].
  exists st'. split; [exact Hr |].
  split; [exact (f_equal (fmap uni_nft_id) Hv) | exact Hp].
Defined.

Lemma open_deposit_mint_effect_witness :
  let st' := final_state
               (open_deposit_mint 5 1 (Some 1%Z) None 10000
                  (one_vault vault_150 1 1 1)) in
  (collateral_amount <$> vault st' !! 1%Z) = Some ((3 # 2) + 1).
Proof.
  destruct (open_deposit_mint_effect 1 (one_vault vault_150 1 1 1) vault_150
              5 1 10000 eq_refl) as [Hm _]; [lra |].
  destruct Hm as [Hv _]; [lra |].
  exact (f_equal (fmap collateral_amount) Hv).
Defined.

Lemma burn_and_withdraw_effect_witness :
  let st' := final_state
               (burn_and_withdraw 1 3 1 (one_vault vault_150 1 1 1)) in
  (osqth_short_amount <$> vault st' !! 1%Z) = Some 0
  /\ (collateral_amount <$> vault st' !! 1%Z) = Some ((3 # 2) - 1).
Proof.
  destruct (burn_and_withdraw_effect 1 (one_vault vault_150 1 1 1) 3 1)
    as [Hv _]; [lra | lra |].
  destruct (Hv vault_150 eq_refl) as [Hv' _].
  split; [exact (f_equal (fmap osqth_short_amount) Hv')
         | exact (f_equal (fmap collateral_amount) Hv')].
Defined.

End SqueethMore.

(** * More on the option market *)

Module DeribitMore.

Import Deribit DeribitSpec.

(** ** The loop over the book *)

Lemma deduct_at_conserves p a (book : list BookOrder) :
  let r := deduct_at p a book in
  sum (map snd (fst r)) == sum (map snd book) - sum (map amount (snd r))
  /\ map fst (fst r) = map fst book.
Proof.
  induction book as [|o book [IH1 IH2]]; cbn [deduct_at].
  - split; [unfold sum; cbn; lra | done].
  - cbv zeta in *. destruct (eqb p (fst o)); cbn [fst snd map].
    + rewrite !sum_cons, IH1, IH2. cbn [amount]. split; [lra | done].
    + rewrite !sum_cons, IH1, IH2. split; [lra | done].
Qed.

Lemma sweep_conserves : forall (book : list BookOrder) a,
  let r := sweep a book in
  sum (map snd (fst r)) == sum (map snd book) - sum (map amount (snd r))
  /\ map fst (fst r) = map fst book.
Proof.
  induction book as [|o book IH]; intros a; cbn [sweep].
  - split; [unfold sum; cbn; lra | done].
  - cbv zeta in *. destruct (eqb (snd o) 0).
    + destruct (IH a) as [IH1 IH2]. cbn [fst snd map].
      rewrite !sum_cons, IH1, IH2. split; [lra | done].
    + destruct (gtb _ _ || eqb _ _); cbn [fst snd map amount].
      * rewrite !sum_cons. split; [| done].
        unfold sum at 3. cbn [fold_left]. lra.
      * destruct (IH (a - min (snd o) a)) as [IH1 IH2].
        rewrite !sum_cons, IH1, IH2. split; [lra | done].
Qed.

(** X9.  [_deduct_order_amount] takes from the book what it fills and
    nothing else: with or without a price, the amounts left in the book are
    the amounts before less the amounts of the returned orders, and the
    prices of the levels and their order are unchanged. *)
Theorem deduct_conserves amount (book : list BookOrder) price :
  let r := _deduct_order_amount amount book price in
  sum (map snd (fst r))
  == sum (map snd book) - sum (map Deribit.amount (snd r))
  /\ map fst (fst r) = map fst book.
Proof.
  destruct price as [p|]; cbn [_deduct_order_amount].
  - apply deduct_at_conserves.
  - apply sweep_conserves.
Qed.

Lemma min_cases a b :
  (b < a /\ min a b = b) \/ (a <= b /\ min a b = a).
Proof.
  unfold min. destruct (ltb b a) eqn:E.
  - left. by apply ltb_lt in E.
  - right. by apply ltb_ge in E.
Qed.

Lemma sweep_fills : forall (book : list BookOrder) a,
  nonnegative_book book -> 0 < a -> a <= sum (map snd book) ->
  let r := sweep a book in
  sum (map amount (snd r)) == a
  /\ Forall (fun t => 0 < amount t) (snd r)
  /\ nonnegative_book (fst r).
Proof.
  induction book as [|o book IH]; intros a Hn Ha Hle; cbn [sweep].
  - unfold sum in Hle. cbn in Hle. lra.
  - cbv zeta. apply Forall_cons in Hn as [Ho Hn]. cbn beta in Ho.
    cbn [map] in Hle. rewrite sum_cons in Hle.
    destruct (eqb (snd o) 0) eqn:Hz.
    + apply eqb_eq in Hz.
      destruct (IH a Hn Ha) as (H1 & H2 & H3); [lra |].
      cbn [fst snd]. split; [done |]. split; [done |].
      by apply Forall_cons.
    + apply eqb_neq in Hz.
      assert (Hpos : 0 < snd o).
      { destruct (Qlt_le_dec 0 (snd o)) as [|Hle0]; [done |].
        destruct Hz. by apply Qle_antisym. }
      destruct (min_cases (snd o) a) as [[Hlt ->]|[Hge ->]].
      * assert (Hg : gtb (snd o - a) 0 = true) by (apply gtb_gt; lra).
        cbn [fst snd]. rewrite Hg. cbn [orb fst snd map amount].
        split; [unfold sum; cbn [fold_left]; lra |].
        split; [by repeat constructor |].
        apply Forall_cons. split; [cbn; lra | done].
      * assert (Hg : gtb (snd o - snd o) 0 = false) by (apply gtb_le; lra).
        cbn [fst snd]. rewrite Hg. cbn [orb].
        destruct (eqb (a - snd o) 0) eqn:Hr.
        -- apply eqb_eq in Hr. cbn [fst snd map amount].
           split; [unfold sum; cbn [fold_left]; lra |].
           split; [by repeat constructor |].
           apply Forall_cons. split; [cbn; lra | done].
        -- apply eqb_neq in Hr.
           destruct (IH (a - snd o) Hn) as (H1 & H2 & H3); [lra | lra |].
           cbn [fst snd map amount]. rewrite sum_cons, H1.
           split; [lra |]. split; [by apply Forall_cons |].
           apply Forall_cons. split; [cbn; lra | done].
Qed.

(** X10.  An order without a price, for a positive amount that the book can
    cover, is filled exactly: on a book without negative levels the returned
    orders add up to the amount, each of them for a positive amount, and no
    level of the book becomes negative. *)
Theorem market_order_filled amount (book : list BookOrder) :
  nonnegative_book book -> 0 < amount -> amount <= sum (map snd book) ->
  let r := _deduct_order_amount amount book None in
  sum (map Deribit.amount (snd r)) == amount
  /\ Forall (fun t => 0 < Deribit.amount t) (snd r)
  /\ nonnegative_book (fst r).
Proof. intros Hn Ha Hle. by apply sweep_fills. Qed.

Lemma market_order_filled_witness :
  let r := _deduct_order_amount 6 [(10, 5); (11, 0); (12, 3)] None in
  sum (map Deribit.amount (snd r)) == 6
  /\ fst r = [(10, 5 - 5); (11, 0); (12, 3 - (6 - 5))].
Proof.
  destruct (market_order_filled 6 [(10, 5); (11, 0); (12, 3)])
    as (Hs & _ & _).
  - repeat constructor; cbn; lra.
  - lra.
  - vm_compute. discriminate.
  - split; [exact Hs | reflexivity].
Defined.

(** ** Orders that are refused *)

Section Trading.

Context (round_decimal : Decimal -> Z -> Decimal).

Implicit Types (st : DeribitOptionMarket).

Lemma in_band_positive p x : in_band p x = true -> 0 < p.
Proof.
  unfold in_band. cbv zeta. intros Hb.
  apply andb_true_iff in Hb as [H1 H2].
  apply ltb_lt in H1. apply ltb_lt in H2. lra.
Qed.

Lemma in_band_exact p (o : BookOrder) : 0 < p -> fst o == p -> in_band p o = true.
Proof.
  intros Hp Ho. unfold in_band. cbv zeta.
  apply andb_true_iff. split; apply ltb_lt; lra.
Qed.

Lemma find_available_nonpositive p (book : list BookOrder) :
  p <= 0 -> _find_available_orders p book = [].
Proof.
  intros Hp. unfold _find_available_orders.
  induction book as [|o book IH]; [done |].
  rewrite filter_cons. destruct (decide (in_band p o = true)) as [Hb|]; [| done].
  apply in_band_positive in Hb. lra.
Qed.

(** X11.  The band around a target price is empty when the price is zero or
    negative, whatever the book holds: a buy or a sell at such a price, on a
    listed and open instrument for an amount not below the minimum, raises
    "... doesn't have a order in price" and leaves the market as it was.
    For a positive price a level at that very price is in the band. *)
Theorem nonpositive_price_refused is_buy name amount pt pu p st ins :
  status_data (market_status st) !! name = Some ins ->
  state ins = "open" ->
  min_amount (token_config st) <= amount ->
  target_price pt pu ins = Val (Some p) ->
  (p <= 0 ->
   trade round_decimal is_buy name amount pt pu st
   = Raised (DemeterError (name ++ " doesn't have a order in price")) st)
  /\ (0 < p ->
      forall o, o ∈ side is_buy ins -> fst o == p ->
                o ∈ _find_available_orders p (side is_buy ins)).
Proof.
  intros Hins Hopen Hmin Htarget. split.
  - intros Hp. apply trade_check_fails.
    unfold _check_transaction. rewrite Hins, Hopen.
    change (negb (String.eqb "open" "open")) with false. cbn iota.
    apply ltb_ge in Hmin. rewrite Hmin, Htarget. cbn [rbind].
    by rewrite find_available_nonpositive.
  - intros Hp o Hin Ho. unfold _find_available_orders.
    apply list_elem_of_filter. split; [by apply in_band_exact | done].
Qed.

(** X12.  A buy or a sell that [_check_transaction] refuses raises the error
    of the check and changes nothing: not the book, not the balance, not the
    positions, not the recorded actions.  The check refuses an instrument
    that is not in the current status, one whose state is not "open" and an
    amount below the minimum amount of the token, with these messages. *)
Theorem refused_trade_changes_nothing is_buy name amount pt pu st :
  let call := trade round_decimal is_buy name amount pt pu st in
  (forall e,
     _check_transaction round_decimal name amount pt pu is_buy st = Exc e ->
     call = Raised e st)
  /\ (status_data (market_status st) !! name = None ->
      call = Raised (DemeterError (name ++ " is not in current orderbook")) st)
  /\ (forall ins,
        status_data (market_status st) !! name = Some ins ->
        (state ins <> "open" ->
         call = Raised (DemeterError ("state of " ++ name ++ " is not open")) st)
        /\ (state ins = "open" ->
            amount < min_amount (token_config st) ->
            call
            = Raised (DemeterError "amount should greater than min amount") st)).
Proof.
  intros call. split; [intros e He; by apply trade_check_fails |].
  split.
  - intros Hnone. apply trade_check_fails.
    unfold _check_transaction. by rewrite Hnone.
  - intros ins Hins. split.
    + intros Hstate. apply trade_check_fails.
      unfold _check_transaction. rewrite Hins.
      apply String.eqb_neq in Hstate. by rewrite Hstate.
    + intros Hopen Hlt. apply trade_check_fails.
      unfold _check_transaction. rewrite Hins, Hopen.
      change (negb (String.eqb "open" "open")) with false. cbn iota.
      apply ltb_lt in Hlt. by rewrite Hlt.
Qed.

End Trading.

Lemma nonpositive_price_refused_witness :
  buy quantize "ETH-100-C" 2 (Some 0) None (market_at 0 [])
  = Raised (DemeterError "ETH-100-C doesn't have a order in price")
      (market_at 0 [])
  /\ (1 # 10, 5) ∈ _find_available_orders (1 # 10) (asks eth_call).
Proof.
  destruct (nonpositive_price_refused quantize true "ETH-100-C" 2
              (Some 0) None 0 (market_at 0 []) eth_call) as [H0 _];
    [reflexivity | reflexivity | vm_compute; discriminate | reflexivity |].
  destruct (nonpositive_price_refused quantize true "ETH-100-C" 2
              (Some (1 # 10)) None (1 # 10) (market_at 0 []) eth_call)
    as [_ H1];
    [reflexivity | reflexivity | vm_compute; discriminate | reflexivity |].
  split.
  - apply H0. lra.
  - apply H1; [lra | apply list_elem_of_here | cbn; lra].
Defined.

Lemma refused_trade_changes_nothing_witness :
  sell quantize "ETH-90-P" 2 None None (market_at 0 [])
  = Raised (DemeterError "ETH-90-P is not in current orderbook")
      (market_at 0 [])
  /\ buy quantize "ETH-100-C" (1 # 100) None None (market_at 0 [])
     = Raised (DemeterError "amount should greater than min amount")
         (market_at 0 []).
Proof.
  split.
  - destruct (refused_trade_changes_nothing quantize false "ETH-90-P" 2
                None None (market_at 0 [])) as (_ & H & _).
    apply H. reflexivity.
  - destruct (refused_trade_changes_nothing quantize true "ETH-100-C"
                (1 # 100) None None (market_at 0 [])) as (_ & _ & H).
    destruct (H eth_call eq_refl) as [_ H']. apply H'; [reflexivity |].
    vm_compute. reflexivity.
Defined.

(** ** The table of positions *)

Lemma pos_lookup_set_same k p (l : list (string * OptionPosition)) :
  pos_lookup k (pos_set k p l) = Some p.
Proof.
  induction l as [|[k' p'] l IH]; cbn [pos_set pos_lookup].
  - by rewrite String.eqb_refl.
  - destruct (String.eqb k k') eqn:E; cbn [pos_lookup].
    + by rewrite String.eqb_refl.
    + by rewrite E.
Qed.

Lemma pos_lookup_set_other k k' p (l : list (string * OptionPosition)) :
  k' <> k -> pos_lookup k' (pos_set k p l) = pos_lookup k' l.
Proof.
  intros Hne. induction l as [|[k0 p0] l IH]; cbn [pos_set pos_lookup].
  - apply String.eqb_neq in Hne. by rewrite Hne.
  - destruct (String.eqb k k0) eqn:E; cbn [pos_lookup].
    + apply String.eqb_eq in E as <-.
      apply String.eqb_neq in Hne. by rewrite Hne.
    + by rewrite IH.
Qed.

Lemma pos_lookup_del_other k k' (l : list (string * OptionPosition)) :
  k' <> k -> pos_lookup k' (pos_del k l) = pos_lookup k' l.
Proof.
  intros Hne. induction l as [|[k0 p0] l IH]; cbn [pos_del pos_lookup]; [done |].
  destruct (String.eqb k k0) eqn:E; cbn [pos_lookup].
  - apply String.eqb_eq in E as <-.
    apply String.eqb_neq in Hne. by rewrite Hne.
  - by rewrite IH.
Qed.

Lemma pos_lookup_absent k (l : list (string * OptionPosition)) :
  k ∉ map fst l -> pos_lookup k l = None.
Proof.
  induction l as [|[k0 p0] l IH]; intros Hk; [done |].
  cbn [map fst] in Hk. apply not_elem_of_cons in Hk as [Hne Hk].
  cbn [pos_lookup]. apply String.eqb_neq in Hne. rewrite Hne. by apply IH.
Qed.

Lemma pos_lookup_del_same k (l : list (string * OptionPosition)) :
  NoDup (map fst l) -> pos_lookup k (pos_del k l) = None.
Proof.
  induction l as [|[k0 p0] l IH]; intros Hnd; [done |].
  cbn [map fst] in Hnd. apply NoDup_cons in Hnd as [Hk0 Hnd].
  cbn [pos_del]. destruct (String.eqb k k0) eqn:E.
  - apply String.eqb_eq in E as <-. by apply pos_lookup_absent.
  - cbn [pos_lookup]. rewrite E. by apply IH.
Qed.

Lemma pos_set_keys k p (l : list (string * OptionPosition)) :
  forall x, x ∈ map fst (pos_set k p l) -> x = k \/ x ∈ map fst l.
Proof.
  induction l as [|[k0 p0] l IH]; intros x; cbn [pos_set map fst].
  - intros Hx. apply list_elem_of_singleton in Hx. by left.
  - destruct (String.eqb k k0) eqn:E; cbn [map fst]; intros Hx.
    + apply String.eqb_eq in E as <-. by right.
    + apply elem_of_cons in Hx as [->|Hx].
      * right. apply list_elem_of_here.
      * destruct (IH x Hx) as [->|Hin]; [by left |].
        right. by apply list_elem_of_further.
Qed.

Lemma pos_set_NoDup k p (l : list (string * OptionPosition)) :
  NoDup (map fst l) -> NoDup (map fst (pos_set k p l)).
Proof.
  induction l as [|[k0 p0] l IH]; intros Hnd; cbn [pos_set map fst].
  - apply NoDup_singleton.
  - cbn [map fst] in Hnd. apply NoDup_cons in Hnd as [Hk0 Hnd].
    destruct (String.eqb k k0) eqn:E; cbn [map fst].
    + apply String.eqb_eq in E as <-. by apply NoDup_cons.
    + apply NoDup_cons. split; [| by apply IH].
      intros Hin. destruct (pos_set_keys k p l k0 Hin) as [->|Hin']; [| done].
      by rewrite String.eqb_refl in E.
Qed.

Lemma pos_del_keys k (l : list (string * OptionPosition)) :
  forall x, x ∈ map fst (pos_del k l) -> x ∈ map fst l.
Proof.
  induction l as [|[k0 p0] l IH]; intros x; cbn [pos_del map fst]; [done |].
  destruct (String.eqb k k0); cbn [map fst]; intros Hx.
  - by apply list_elem_of_further.
  - apply elem_of_cons in Hx as [->|Hx]; [apply list_elem_of_here |].
    apply list_elem_of_further. by apply IH.
Qed.

Lemma pos_del_NoDup k (l : list (string * OptionPosition)) :
  NoDup (map fst l) -> NoDup (map fst (pos_del k l)).
Proof.
  induction l as [|[k0 p0] l IH]; intros Hnd; cbn [pos_del map fst]; [done |].
  cbn [map fst] in Hnd. apply NoDup_cons in Hnd as [Hk0 Hnd].
  destruct (String.eqb k k0); cbn [map fst]; [done |].
  apply NoDup_cons. split; [| by apply IH].
  intros Hin. by apply Hk0, (pos_del_keys k).
Qed.

Section Positions.

Context (round_decimal : Decimal -> Z -> Decimal).

Implicit Types (st : DeribitOptionMarket).

(** X13.  A buy that returns leaves a position for the instrument.  A new
    position has the strike, the expiry and the kind of the instrument, the
    traded amount as its amount, and the average price of the returned
    orders as its buy price; an existing position has the traded amount
    added to its amount and to its bought amount.  The positions of the
    other instruments are unchanged, and one buy action with the traded
    amount and the returned orders is appended to the recorded actions. *)
Theorem buy_adds_to_position name amount pt pu st fills st' :
  buy round_decimal name amount pt pu st = Ok fills st' ->
  exists a ins p pos',
    _check_transaction round_decimal name amount pt pu true st
    = Val (a, ins, p)
    /\ pos_lookup name (positions st') = Some pos'
    /\ match pos_lookup name (positions st) with
       | Some pos =>
           pos_amount pos' = pos_amount pos + a
           /\ buy_amount pos' = buy_amount pos + a
           /\ sell_amount pos' = sell_amount pos
           /\ pos_strike_price pos' = pos_strike_price pos
           /\ pos_expiry_time pos' = pos_expiry_time pos
       | None =>
           pos_amount pos' = a
           /\ buy_amount pos' = a
           /\ sell_amount pos' = 0
           /\ pos_strike_price pos' = strike_price ins
           /\ pos_expiry_time pos' = expiry_time ins
           /\ pos_type pos' = type ins
           /\ get_average_price fills = Val (avg_buy_price pos')
       end
    /\ (forall other, other <> name ->
          pos_lookup other (positions st') = pos_lookup other (positions st))
    /\ exists t,
         action_log st' = action_log st ++ [BuyAction t]
         /\ ta_amount t = a /\ ta_orders t = fills.
Proof.
  unfold buy. mstep.
  destruct (_check_transaction _ _ _ _ _ _ _) as [[[a ins] p]|e]; [| done].
  unfold store_book. mstep.
  destruct (stored_book_frame true name (_deduct_order_amount a (asks ins) p).1 st)
    as (Hb & Ht & Hc & Hp & Hl).
  revert Hb Ht Hc Hp Hl.
  generalize (stored_book true name (_deduct_order_amount a (asks ins) p).1 st).
  intros st1 Hb Ht Hc Hp Hl.
  destruct (Broker.subtract_from_balance _ _ _) as [b|e]; [| done].
  destruct (get_average_price _) as [avg|e] eqn:Eavg; [| done].
  rewrite Hp.
  destruct (pos_lookup name (positions st)) as [pos|].
  - destruct (get_average_price [_; _]) as [avg'|e]; [| done].
    unfold _record_action, modify. intros [= <- <-].
    eexists a, ins, p, _. split; [done |]. cbn. rewrite Hp, Hl.
    split; [apply pos_lookup_set_same |].
    split; [by repeat split |].
    split; [intros other Hne; by apply pos_lookup_set_other |].
    eexists. by repeat split.
  - unfold _record_action, modify. intros [= <- <-].
    eexists a, ins, p, _. split; [done |]. cbn. rewrite Hp, Hl.
    split; [apply pos_lookup_set_same |].
    split; [by repeat split |].
    split; [intros other Hne; by apply pos_lookup_set_other |].
    eexists. by repeat split.
Qed.

(** X14.  A sell that returns had a position for the instrument.  When the
    traded amount is the whole position or more, the position is removed,
    without an error for the excess; otherwise the traded amount is taken
    from its amount and added to its sold amount.  The positions of the
    other instruments are unchanged and the table still has one entry per
    key. *)
Theorem sell_takes_from_position name amount pt pu st fills st' :
  NoDup (map fst (positions st)) ->
  sell round_decimal name amount pt pu st = Ok fills st' ->
  exists a ins p pos,
    _check_transaction round_decimal name amount pt pu false st
    = Val (a, ins, p)
    /\ pos_lookup name (positions st) = Some pos
    /\ (pos_amount pos <= a -> pos_lookup name (positions st') = None)
    /\ (a < pos_amount pos ->
        exists pos',
          pos_lookup name (positions st') = Some pos'
          /\ pos_amount pos' = pos_amount pos - a
          /\ sell_amount pos' = sell_amount pos + a
          /\ buy_amount pos' = buy_amount pos)
    /\ (forall other, other <> name ->
          pos_lookup other (positions st') = pos_lookup other (positions st))
    /\ NoDup (map fst (positions st')).
Proof.
  intros Hnd. unfold sell. mstep.
  destruct (_check_transaction _ _ _ _ _ _ _) as [[[a ins] p]|e]; [| done].
  unfold store_book. mstep.
  destruct (stored_book_frame false name (_deduct_order_amount a (bids ins) p).1 st)
    as (Hb & Ht & Hc & Hp & Hl).
  revert Hb Ht Hc Hp Hl.
  generalize (stored_book false name (_deduct_order_amount a (bids ins) p).1 st).
  intros st1 Hb Ht Hc Hp Hl.
  destruct (get_average_price _) as [avg|e]; [| done].
  rewrite Hp.
  destruct (pos_lookup name (positions st)) as [pos|]; [| done].
  destruct (get_average_price _) as [avg'|e]; [| done].
  unfold _record_action, modify. intros [= <- <-].
  exists a, ins, p, pos. split; [done |]. split; [done |].
  cbn. rewrite Hp.
  destruct (leb (pos_amount pos - a) 0) eqn:El.
  - apply leb_le in El. split; [intros _; by apply pos_lookup_del_same |].
    split; [intros Hlt; lra |].
    split; [intros other Hne; by apply pos_lookup_del_other |].
    by apply pos_del_NoDup.
  - assert (Hgt : 0 < pos_amount pos - a).
    { apply Qnot_le_lt. intros Hle. apply leb_le in Hle. congruence. }
    split; [intros Hle; lra |].
    split.
    { intros _. eexists. split; [apply pos_lookup_set_same |]. by repeat split. }
    split; [intros other Hne; by apply pos_lookup_set_other |].
    by apply pos_set_NoDup.
Qed.

(** *** Settling twice *)

Lemma exercise_loop_none (l : list (string * OptionPosition)) st :
  (forall e, e ∈ l -> expired st (snd e) = false) ->
  exercise_loop round_decimal l st = Ok [] st.
Proof.
  induction l as [|[k p] l IH]; intros Hl; [done |].
  cbn [exercise_loop]. unfold exercise_position at 1. mstep.
  assert (He : expired st p = false) by apply (Hl (k, p)), list_elem_of_here.
  unfold expired in He. rewrite He. cbn.
  rewrite IH; [done |]. intros e Hin. by apply Hl, list_elem_of_further.
Qed.

(** X15.  Settling is idempotent: after [check_option_exercise] has returned,
    no position of the table has expired, and a second call at the same
    status returns and changes nothing. *)
Theorem settle_twice st st' :
  NoDup (map fst (positions st)) ->
  check_option_exercise round_decimal st = Ok tt st' ->
  (forall e, e ∈ positions st' -> expired st' (snd e) = false)
  /\ check_option_exercise round_decimal st' = Ok tt st'.
Proof.
  intros Hnd Hok.
  assert (Hq : expired_quoted st (positions st)).
  { unfold check_option_exercise in Hok. mstep.
    destruct (exercise_loop round_decimal (positions st) st)
      as [ks st1|] eqn:E; [| done].
    by apply (exercise_loop_inv round_decimal st (positions st) st ks st1
                (same_market_refl st)). }
  destruct (exercise_loop_spec round_decimal st (positions st) st
              (same_market_refl st) Hq) as (st1 & H1 & Hs1 & Hp1 & _).
  destruct (remove_loop_spec round_decimal st (positions st) [] st1
              Hs1 Hp1 Hnd Hq) as (st2 & H2 & Hs2 & Hp2 & _).
  assert (st' = st2) as ->.
  { unfold check_option_exercise in Hok. mstep. rewrite H1 in Hok.
    rewrite H2 in Hok. by injection Hok. }
  assert (Hnone : forall e, e ∈ positions st2 -> expired st2 (snd e) = false).
  { intros e Hin. rewrite Hp2 in Hin. cbn [app] in Hin.
    apply list_elem_of_filter in Hin as [He _].
    destruct Hs2 as (_ & _ & Hm & _). unfold expired in *. by rewrite Hm. }
  split; [exact Hnone |].
  unfold check_option_exercise. mstep.
  by rewrite (exercise_loop_none _ _ Hnone).
Qed.

End Positions.

Lemma buy_adds_to_position_witness :
  exists fills st' pos',
    buy quantize "ETH-100-C" 2 None None (market_at 0 []) = Ok fills st'
    /\ pos_lookup "ETH-100-C" (positions st') = Some pos'
    /\ pos_amount pos' = 2
    /\ pos_strike_price pos' = 100.
Proof.
  destruct (buy quantize "ETH-100-C" 2 None None (market_at 0 []))
    as [fills st'|e st'] eqn:Hbuy; [| vm_compute in Hbuy; discriminate].
  destruct (buy_adds_to_position quantize "ETH-100-C" 2 None None
              (market_at 0 []) fills st' Hbuy)
    as (a & ins & p & pos' & Hc & Hl & (Ha & _ & _ & Hs & _) & _).
  vm_compute in Hc. injection Hc as <- <- <-.
  exists fills, st', pos'. by repeat split.
Defined.

Lemma sell_takes_from_position_witness :
  let st := market_at 0 [("ETH-100-C", eth_call_position)] in
  exists fills st' pos',
    sell quantize "ETH-100-C" 2 None None st = Ok fills st'
    /\ pos_lookup "ETH-100-C" (positions st') = Some pos'
    /\ pos_amount pos' = 5 - 2
    /\ sell_amount pos' = 0 + 2.
Proof.
  intros st.
  destruct (sell quantize "ETH-100-C" 2 None None st)
    as [fills st'|e st'] eqn:Hsell; [| vm_compute in Hsell; discriminate].
  assert (Hnd : NoDup (map fst (positions st))) by apply NoDup_singleton.
  destruct (sell_takes_from_position quantize "ETH-100-C" 2 None None
              st fills st' Hnd Hsell)
    as (a & ins & p & pos & Hc & Hpos & _ & Hless & _).
  vm_compute in Hc. injection Hc as <- <- <-.
  injection Hpos as <-.
  destruct Hless as (pos' & Hl & Ha & Hs & _); [cbn; lra |].
  exists fills, st', pos'. by repeat split.
Defined.

Lemma settle_twice_witness :
  let st := market_at 2 [("ETH-100-C", eth_call_position)] in
  exists st',
    check_option_exercise quantize st = Ok tt st'
    /\ check_option_exercise quantize st' = Ok tt st'.
Proof.
  intros st.
  destruct (check_option_exercise quantize st)
    as [[] st'|e st'] eqn:Hok; [| vm_compute in Hok; discriminate].
  assert (Hnd : NoDup (map fst (positions st))) by apply NoDup_singleton.
  destruct (settle_twice quantize st st' Hnd Hok) as [_ Hagain].
  exists st'. by split.
Defined.

End DeribitMore.

(** * More on the actuator *)

Module ActuatorMore.

Import Actuator ActuatorSpec.

(** ** Computations that keep a property of the state *)

Section Keeps.

Context {S : Type} (P : S -> Prop).

Lemma keeps_ret {B} (b : B) : keeps P (ret b).
Proof. by intros s. Qed.

Lemma keeps_raise {B} e : keeps P (raise e : M S B).
Proof. by intros s. Qed.

Lemma keeps_get : keeps P get.
Proof. by intros s. Qed.

Lemma keeps_lift {B} (r : res B) : keeps P (lift r).
Proof. intros s. unfold lift. by destruct r. Qed.

Lemma keeps_modify (g : S -> S) :
  (forall s, P s -> P (g s)) -> keeps P (modify g).
Proof. intros Hg s. apply Hg. Qed.

Lemma keeps_bind {B C} (c : M S B) (k : B -> M S C) :
  keeps P c -> (forall b, keeps P (k b)) -> keeps P (bind c k).
Proof.
  intros Hc Hk s Hs. unfold bind. specialize (Hc s Hs).
  destruct (c s) as [b s1|e s1]; cbn in *; [| done].
  by apply Hk.
Qed.

Lemma keeps_when (b : bool) (c : M S unit) : keeps P c -> keeps P (when b c).
Proof. intros Hc. destruct b; [done | apply keeps_ret]. Qed.

End Keeps.

Lemma keeps_preserves {S X B} (f : S -> X) (x : X) (c : M S B) :
  preserves f c -> keeps (fun s => f s = x) c.
Proof. intros Hc s Hs. by rewrite Hc. Qed.


(** Splits the goal [keeps P c] along the structure of [c]. *)
Ltac keep :=
  repeat first
    [ assumption
    | apply keeps_ret
    | apply keeps_raise
    | apply keeps_get
    | apply keeps_lift
    | apply keeps_when
    | apply keeps_bind; [| intros ?]
    | match goal with
      | |- keeps _ (match ?x with _ => _ end) => destruct x
      end ].

Section Run.

Context {W View A : Type} (setup : Setup W View A).

Implicit Types (s : Actuator W A).

(** ** What the main loop leaves alone *)

Section Loop.

Context {X : Type} (f : Actuator W A -> X).
Hypothesis f_actions : forall l s, f (with_action_list l s) = f s.
Hypothesis f_currents : forall c s, f (with_currents c s) = f s.
Hypothesis f_world : forall w s, f (with_world w s) = f s.
Hypothesis f_statuses : forall l s, f (with_account_status_list l s) = f s.

Lemma tick_preserves t row_id : preserves f (tick setup t row_id).
Proof.
  unfold tick, __set_row_to_markets. frame;
    first [ apply price_at_preserves
          | apply set_rows_preserves; assumption
          | apply run_triggers_preserves; assumption
          | apply perform_preserves; assumption
          | apply update_all_preserves; assumption
          | apply get_account_status_preserves
          | apply notify_preserves; assumption
          | apply preserves_modify; intros ?;
            first [apply f_currents | apply f_statuses] ].
Qed.

Lemma main_loop_preserves idx : forall row_id,
  preserves f (main_loop setup idx row_id).
Proof.
  induction idx as [|t idx IH]; intros row_id; cbn [main_loop].
  - apply preserves_ret.
  - apply preserves_bind; [apply tick_preserves | intros ?; apply IH].
Qed.

End Loop.

(** ** The final status *)




(** ** The price table *)

Lemma check_backtest_keeps_prices p :
  keeps (fun s => _token_prices s = Some p) (_check_backtest setup).
Proof.
  intros s Hp. unfold _check_backtest.
  destruct (length (markets setup) <? 1)%nat; [done |].
  unfold bind at 1, get at 1. rewrite Hp.
  unfold bind at 1, ret at 1. unfold bind at 1, get at 1. rewrite Hp.
  match goal with
  | |- _token_prices (final_state (?k s)) = _ =>
      enough (Hk : preserves _token_prices k) by (by rewrite Hk)
  end.
  frame.
Qed.

(** X17.  A run never touches a price table that was set: whether the run
    returns or raises, and wherever it raises, the table is afterwards the
    one that [set_price] had stored; [reset] does not clear it and the
    validation takes the prices of the pool markets only when no table is
    set. *)
Theorem run_keeps_prices evaluator output s p :
  _token_prices s = Some p ->
  _token_prices (final_state (run setup evaluator output s)) = Some p.
Proof.
  revert s.
  change (keeps (fun s => _token_prices s = Some p)
            (run setup evaluator output)).
  unfold run, run_main. keep;
    first [ apply check_backtest_keeps_prices
          | apply (keeps_preserves _token_prices (Some p));
            first [ apply set_rows_preserves; intros; reflexivity
                  | apply perform_preserves; intros; reflexivity
                  | apply main_loop_preserves; intros; reflexivity
                  | apply preserves_modify; intros; reflexivity ] ].
Qed.

(** ** The timestamps of the recorded actions *)

Lemma stamps_same {B} (c : M (Actuator W A) B) :
  preserves _action_list c -> preserves _currents c -> stamps c.
Proof.
  intros Ha Hc s. cbv zeta. rewrite Ha, Hc. split; [done |].
  exists []. by rewrite app_nil_r.
Qed.

Lemma stamps_ret {B} (b : B) : stamps (ret b : M (Actuator W A) B).
Proof. apply stamps_same; apply preserves_ret. Qed.

Lemma stamps_raise {B} e : stamps (raise e : M (Actuator W A) B).
Proof. apply stamps_same; apply preserves_raise. Qed.

Lemma stamps_get : stamps (W:=W) (A:=A) get.
Proof. apply stamps_same; apply preserves_get. Qed.

Lemma stamps_lift {B} (r : res B) : stamps (lift r : M (Actuator W A) B).
Proof. apply stamps_same; apply preserves_lift. Qed.

Lemma stamps_reads {B} (g : Actuator W A -> res B) : stamps (reads g).
Proof. apply stamps_same; apply reads_preserves. Qed.

Lemma stamps_modify (g : Actuator W A -> Actuator W A) :
  (forall s, _action_list (g s) = _action_list s
             /\ _currents (g s) = _currents s) ->
  stamps (modify g).
Proof.
  intros Hg. apply stamps_same; apply preserves_modify; intros s; apply Hg.
Qed.

Lemma stamps_bind {B C} (c : M (Actuator W A) B) (k : B -> M (Actuator W A) C) :
  stamps c -> (forall b, stamps (k b)) -> stamps (bind c k).
Proof.
  intros Hc Hk s. cbv zeta. unfold bind.
  destruct (Hc s) as (Ht & new & Hl & Hnew).
  destruct (c s) as [b s1|e s1]; cbn [final_state] in *.
  - destruct (Hk b s1) as (Ht' & new' & Hl' & Hnew').
    split; [congruence |]. exists (new ++ new'). split.
    + by rewrite Hl', Hl, app_assoc.
    + apply Forall_app. split; [done |]. by rewrite <- Ht.
  - split; [done |]. by exists new.
Qed.

Lemma stamps_when (b : bool) (c : M (Actuator W A) unit) :
  stamps c -> stamps (when b c).
Proof. intros Hc. destruct b; [done | apply stamps_ret]. Qed.

Lemma stamps_record (a : A) : stamps (_record_action_list (W:=W) a).
Proof.
  intros s. cbv zeta. unfold _record_action_list, modify. cbn.
  split; [done |]. eexists [_]. split; [done |]. by repeat constructor.
Qed.

Lemma stamps_record_all (l : list A) : stamps (record_all (W:=W) l).
Proof.
  induction l as [|a l IH]; cbn [record_all].
  - apply stamps_ret.
  - apply stamps_bind; [apply stamps_record | by intros ?].
Qed.

Lemma stamps_perform {B} (c : Eff W A B) : stamps (perform c).
Proof.
  intros s. cbv zeta. unfold perform.
  destruct (stamps_record_all (fst (c (world s))) s) as (Ht & new & Hl & Hnew).
  destruct (record_all _ s) as [u s1|e s1]; cbn [final_state] in *.
  - destruct (snd (c (world s))); cbn; (split; [done | by exists new]).
  - split; [done | by exists new].
Qed.

(** Splits the goal [stamps c] along the structure of [c]. *)
Ltac stamp :=
  repeat first
    [ assumption
    | apply stamps_ret
    | apply stamps_raise
    | apply stamps_get
    | apply stamps_lift
    | apply stamps_reads
    | apply stamps_when
    | apply stamps_perform
    | apply stamps_bind; [| intros ?]
    | (apply stamps_modify; intros ?; split; reflexivity)
    | match goal with
      | |- stamps (match ?x with _ => _ end) => destruct x
      end ].

Lemma stamps_set_rows (ms : list (MarketInfo * Market W View A)) t update :
  stamps (set_rows ms t update).
Proof. induction ms as [|m ms IH]; cbn [set_rows]; stamp. Qed.

Lemma stamps_run_triggers (ts : list (Trigger W View A)) row_data :
  stamps (run_triggers ts row_data).
Proof. induction ts as [|t ts IH]; cbn [run_triggers]; stamp. Qed.

Lemma stamps_update_all (ms : list (MarketInfo * Market W View A)) :
  stamps (update_all ms).
Proof. induction ms as [|m ms IH]; cbn [update_all]; stamp. Qed.

Lemma stamps_notify (l : list (BaseAction A)) : stamps (notify setup l).
Proof. induction l as [|a l IH]; cbn [notify]; stamp. Qed.

Lemma tick_stamps t row_id s :
  let s' := final_state (tick setup t row_id s) in
  (timestamp (_currents s') = timestamp (_currents s)
   \/ timestamp (_currents s') = Some t)
  /\ exists new,
       _action_list s' = _action_list s ++ new
       /\ Forall (fun a => action_timestamp a = Some t) new.
Proof.
  intros s'. assert (Hs' : s' = final_state (tick setup t row_id s)) by done.
  clearbody s'. unfold tick, __set_row_to_markets in Hs'.
  unfold bind at 1 in Hs'.
  pose proof (reads_preserves (fun s => s) _ s : final_state (price_at t s) = s)
    as H1.
  destruct (price_at t s) as [cp s1|e s1]; cbn [final_state] in *; subst s1.
  2: { subst s'. split; [by left |]. exists []. by rewrite app_nil_r. }
  unfold bind at 1 in Hs'.
  pose proof (set_rows_preserves _action_list (fun _ _ => eq_refl)
                (markets setup) t false s) as Ha.
  pose proof (set_rows_preserves _currents (fun _ _ => eq_refl)
                (markets setup) t false s) as Hc.
  destruct (set_rows (markets setup) t false s) as [u s2|e s2];
    cbn [final_state] in *.
  2: { subst s'. rewrite Ha, Hc. split; [by left |].
       exists []. by rewrite app_nil_r. }
  unfold bind at 1, modify at 1 in Hs'.
  match type of Hs' with
  | _ = final_state (?k ?x) =>
      assert (Hk : stamps k);
      [| destruct (Hk x) as (Ht & new & Hl & Hnew) ]
  end.
  { stamp;
      first [ apply stamps_run_triggers | apply stamps_set_rows
            | apply stamps_update_all | apply stamps_notify ]. }
  rewrite <- Hs' in Ht, Hl.
  cbn [_currents with_currents timestamp _action_list] in Ht, Hl, Hnew.
  split; [by right |]. exists new. by rewrite Hl, Ha.
Qed.

(** X18.  One turn of the main loop, for the timestamp [t], changes the
    action list only by appending to it, and every action that it appends
    carries the timestamp [t]; this holds also when the turn raises, for the
    actions recorded before the raise. *)
Theorem tick_stamps_actions t row_id s :
  let s' := final_state (tick setup t row_id s) in
  exists new,
    _action_list s' = _action_list s ++ new
    /\ Forall (fun a => action_timestamp a = Some t) new.
Proof.
  intros s'. destruct (tick_stamps t row_id s) as (_ & new & Hnew).
  by exists new.
Qed.

(** The timestamp is one of the index of the first market, or none. *)
Abbreviation of_the_index o :=
  (match o with
   | None => True
   | Some t =>
       exists first,
         nth_item (markets setup) 0 = Val first /\ t ∈ data_index (snd first)
   end).

Abbreviation stamped_by_index s :=
  (Forall (fun a => of_the_index (action_timestamp a)) (_action_list s)
   /\ of_the_index (timestamp (_currents s))).







End Run.

Lemma run_keeps_prices_witness :
  _token_prices
    (final_state
       (run one_market None true (fresh (Some (plain_prices [10; 20; 30]%Z)))))
  = Some (plain_prices [10; 20; 30]%Z)
  /\ _token_prices
       (final_state
          (run one_market None true (fresh (Some (plain_prices [10; 20]%Z)))))
     = Some (plain_prices [10; 20]%Z).
Proof.
  split; by apply (run_keeps_prices one_market None true).
Defined.

End ActuatorMore.
